(** * Double ML (econml/dml.py): a shallow embedding and its properties

    The development follows the module top to bottom: Python's exceptions
    and the state threaded through method calls ([Py]), the numpy arrays and
    the array helpers the module imports ([Np]), the sklearn pieces it
    relies on ([Sk]), the estimator classes of dml.py ([Dml]), the kernel
    configuration ([Kernel]) and a few concrete estimators on which the
    statements are run ([Toy]).  The theorems come after the definitions.

    Array entries are exact integers: every statement below is about shapes
    and about which entry lands where, none about rounding. *)

From stdpp Require Import base tactics option list numbers strings gmap.
From Stdlib Require Import ZArith Lia.

(* ===================================================================== *)
(** ** Python exceptions and stateful calls *)
(* ===================================================================== *)

Module Py.

(** The exceptions the module can raise.  [Unmodelled] is not a Python
    exception: it marks inputs the embedding does not cover (numpy
    broadcasting of unequal shapes, arrays of more than two dimensions
    where a matrix is expected).  No theorem concludes anything from it. *)
Inductive exn : Type :=
| AssertionError
| ValueError
| IndexError
| TypeError
| AttributeError (attr : string)
| NameError (name : string)
| Unmodelled.

(** A call either raises ([inl]) or returns ([inr]). *)
Definition result (A : Type) : Type := (exn + A)%type.

Definition ok {A} (a : A) : result A := inr a.
Definition raise {A} (e : exn) : result A := inl e.

Definition bindR {A B} (r : result A) (k : A -> result B) : result B :=
  match r with
  | inl e => inl e
  | inr a => k a
  end.

(** A method call on an object: it may change the object also when it
    raises, so the state after the call is returned in both cases. *)
Definition M (S A : Type) : Type := S -> S * result A.

Definition ret {S A} (a : A) : M S A := fun s => (s, inr a).
Definition throw {S A} (e : exn) : M S A := fun s => (s, inl e).
Definition lift {S A} (r : result A) : M S A := fun s => (s, r).
Definition get {S} : M S S := fun s => (s, inr s).
Definition modify {S} (f : S -> S) : M S unit := fun s => (f s, inr tt).

Definition bind {S A B} (m : M S A) (k : A -> M S B) : M S B :=
  fun s =>
    match m s with
    | (s', inl e) => (s', inl e)
    | (s', inr a) => k a s'
    end.

(** [for x in l: acc = body x acc], stopping at the first exception. *)
Fixpoint for_each {S A B} (l : list A) (body : A -> B -> M S B) (acc : B)
  : M S B :=
  match l with
  | [] => ret acc
  | x :: l' => bind (body x acc) (for_each l' body)
  end.

(** [enumerate(l)] *)
Definition enumerate {A} (l : list A) : list (nat * A) :=
  zip (seq 0 (length l)) l.

End Py.

Export Py.

Declare Scope py_scope.
Delimit Scope py_scope with py.

Notation "'let!' x ':=' m 'in' k" := (bind m (fun x => k))
  (at level 10, x pattern, m at level 100, k at level 200,
   format "'[v' 'let!'  x  :=  m  'in' '/' k ']'") : py_scope.
Notation "m ;;; k" := (bind m (fun _ => k))
  (at level 100, right associativity) : py_scope.
Notation "'let?' x ':=' r 'in' k" := (bindR r (fun x => k))
  (at level 10, x pattern, r at level 100, k at level 200,
   format "'[v' 'let?'  x  :=  r  'in' '/' k ']'") : py_scope.

Open Scope py_scope.

(* ===================================================================== *)
(** ** numpy arrays and the helpers of econml.utilities *)
(* ===================================================================== *)

Module Np.

(** dml.py works on numpy arrays, through numpy itself ([np.ones],
    [np.zeros], [np.empty], [np.eye], [np.kron], indexing, subtraction) and
    through the helpers [shape], [reshape], [ndim], [hstack], [transpose]
    and [cross_product] that it imports from econml/utilities.py.  That
    file is not among the sources: on dense arrays the first five are the
    numpy functions of the same names and are modelled as such. *)

(** An array is its shape and its entries in row-major (C) order. *)
Record ndarray : Type := mk_ndarray { shape : list nat; data : list Z }.

(** Number of entries of an array of shape [sh]. *)
Definition size_of (sh : list nat) : nat := foldr Nat.mul 1 sh.

Definition wf (a : ndarray) : Prop := length (data a) = size_of (shape a).

Definition ndim (a : ndarray) : nat := length (shape a).

(** [shape(a)[0]], with [shape] as [np.shape]. *)
Definition shape0 (a : ndarray) : result nat :=
  match shape a with
  | [] => raise IndexError
  | n :: _ => ok n
  end.

(** [shape(a)[1:]] *)
Definition shape_tail (a : ndarray) : list nat := tail (shape a).

Definition full (sh : list nat) (v : Z) : ndarray :=
  {| shape := sh; data := replicate (size_of sh) v |}.

(** [np.ones(sh)], [np.zeros(sh)] *)
Definition ones (sh : list nat) : ndarray := full sh 1.
Definition zeros (sh : list nat) : ndarray := full sh 0.

(** [np.empty(sh)]: the entries are whatever the memory holds; dml.py
    only builds it with zero columns, where there are none. *)
Definition empty (sh : list nat) : ndarray := full sh 0.

(** [np.eye(n)] *)
Definition eye (n : nat) : ndarray :=
  {| shape := [n; n];
     data := flat_map (fun i => map (fun j => if Nat.eqb i j then 1%Z else 0%Z)
                                    (seq 0 n))
                      (seq 0 n) |}.

(** [np.array([v])] *)
Definition array1 (v : Z) : ndarray := {| shape := [1]; data := [v] |}.

(** Row [i] of width [w] in a flat list of entries. *)
Definition chunk (w : nat) (l : list Z) (i : nat) : list Z :=
  take w (drop (i * w) l).

(** [a[i]] for an array of at least one dimension: the entries of its
    [i]-th block along the first axis. *)
Definition row (a : ndarray) (i : nat) : list Z :=
  chunk (size_of (shape_tail a)) (data a) i.

(** Modelled from the spec: [reshape] of econml/utilities.py, not among
    the sources; on a dense array it is [np.reshape].  One entry of [dims]
    may be [-1]: it is inferred from the number of entries, which the
    known dimensions must divide and whose product must not be zero. *)
Definition reshape (a : ndarray) (dims : list Z) : result ndarray :=
  let sz := Z.of_nat (length (data a)) in
  let known := foldr Z.mul 1%Z (filter (fun d => d ≠ (-1)%Z) dims) in
  if decide (Exists (fun d => (d < -1)%Z) dims) then raise ValueError
  else
    match length (filter (fun d => d = (-1)%Z) dims) with
    | 0 =>
        if decide (known = sz)
        then ok {| shape := Z.to_nat <$> dims; data := data a |}
        else raise ValueError
    | 1 =>
        if decide (known = 0%Z) then raise ValueError
        else if decide ((sz mod known)%Z = 0%Z)
        then ok {| shape := (fun d => if decide (d = (-1)%Z)
                                      then Z.to_nat (sz / known)
                                      else Z.to_nat d) <$> dims;
                   data := data a |}
        else raise ValueError
    | _ => raise ValueError
    end.

(** [a[idxs]] with a list of row indices. *)
Definition take_rows (a : ndarray) (idxs : list nat) : result ndarray :=
  match shape a with
  | [] => raise IndexError
  | n :: rest =>
      if decide (Forall (fun i => i < n) idxs)
      then ok {| shape := length idxs :: rest;
                 data := flat_map (row a) idxs |}
      else raise IndexError
  end.

(** Position of the last occurrence of [j] in [idxs]. *)
Fixpoint last_index_of (j : nat) (idxs : list nat) : option nat :=
  match idxs with
  | [] => None
  | i :: idxs' =>
      match last_index_of j idxs' with
      | Some p => Some (S p)
      | None => if decide (i = j) then Some 0 else None
      end
  end.

(** [a[idxs] = rhs]: row [idxs[p]] of [a] becomes row [p] of [rhs] (the
    last assignment wins where an index repeats).  numpy would also
    broadcast a [rhs] of another shape; that is not modelled. *)
Definition set_rows (a : ndarray) (idxs : list nat) (rhs : ndarray)
  : result ndarray :=
  match shape a with
  | [] => raise IndexError
  | n :: rest =>
      if decide (Forall (fun i => i < n) idxs)
      then
        if decide (shape rhs = length idxs :: rest)
        then ok {| shape := shape a;
                   data := flat_map (fun j => match last_index_of j idxs with
                                              | Some p => row rhs p
                                              | None => row a j
                                              end)
                                    (seq 0 n) |}
        else raise Unmodelled
      else raise IndexError
  end.

(** [a - b] for arrays of one shape.  numpy broadcasts unequal shapes;
    that is not modelled. *)
Definition sub (a b : ndarray) : result ndarray :=
  if decide (shape a = shape b)
  then ok {| shape := shape a; data := zip_with Z.sub (data a) (data b) |}
  else raise Unmodelled.

(** [np.atleast_1d] *)
Definition atleast_1d (a : ndarray) : ndarray :=
  match shape a with
  | [] => {| shape := [1]; data := data a |}
  | _ => a
  end.

(** Modelled from the spec: [hstack] of econml/utilities.py, not among
    the sources; on dense arrays it is [np.hstack].  Vectors are joined end
    to end, arrays of two or more dimensions along their second axis. *)
Definition hstack (XS : list ndarray) : result ndarray :=
  let arrs := atleast_1d <$> XS in
  match arrs with
  | [] => raise ValueError
  | A0 :: _ =>
      match shape A0 with
      | [_] =>
          if decide (Forall (fun a => ndim a = 1) arrs)
          then ok {| shape := [sum_list ((fun a => length (data a)) <$> arrs)];
                     data := flat_map data arrs |}
          else raise ValueError
      | n :: _ :: rest =>
          if decide (Forall (fun a => 2 <= ndim a /\ head (shape a) = Some n
                                      /\ drop 2 (shape a) = rest) arrs)
          then ok {| shape := n :: sum_list ((fun a => nth 1 (shape a) 0) <$> arrs)
                                :: rest;
                     data := flat_map (fun i => flat_map (fun a => row a i) arrs)
                                      (seq 0 n) |}
          else raise ValueError
      | [] => raise ValueError
      end
  end.

(** The number of columns of a vector (one) or of a matrix. *)
Definition ncols (a : ndarray) : nat :=
  match shape a with
  | [_; d] => d
  | _ => 1
  end.

(** Modelled from the spec: [cross_product] of econml/utilities.py, which
    is not among the sources.  Both arguments are vectors or matrices of
    [n] rows (the helper asserts it); row [t] of the result lists the
    products [X1[t,j1] * X2[t,j2]] with the index [j1] of the first
    argument running fastest, so that the result has one block of
    [ncols X1] columns per column of [X2]. *)
Definition cross_product (X1 X2 : ndarray) : result ndarray :=
  if decide (1 <= ndim X1 <= 2 /\ 1 <= ndim X2 <= 2)
  then
    match shape X1, shape X2 with
    | n :: _, n2 :: _ =>
        if decide (n = n2)
        then ok {| shape := [n; ncols X1 * ncols X2];
                   data := flat_map
                             (fun t => flat_map (fun x2 => map (fun x1 => (x1 * x2)%Z)
                                                               (row X1 t))
                                                (row X2 t))
                             (seq 0 n) |}
        else raise AssertionError
    | _, _ => raise AssertionError
    end
  else raise AssertionError.

(** A scalar, vector or matrix seen as a matrix, the way [np.kron] pads
    the shape of the argument of fewer dimensions. *)
Definition as_matrix (a : ndarray) : option (nat * nat) :=
  match shape a with
  | [] => Some (1, 1)
  | [c] => Some (1, c)
  | [r; c] => Some (r, c)
  | _ => None
  end.

(** [np.kron(a, b)] for arguments of at most two dimensions. *)
Definition kron (a b : ndarray) : result ndarray :=
  match as_matrix a, as_matrix b with
  | Some (ra, ca), Some (rb, cb) =>
      ok {| shape := drop (2 - Nat.max (ndim a) (ndim b)) [ra * rb; ca * cb];
            data := flat_map
                      (fun i => flat_map
                                  (fun k => flat_map
                                              (fun x => map (Z.mul x) (chunk cb (data b) k))
                                              (chunk ca (data a) i))
                                  (seq 0 rb))
                      (seq 0 ra) |}
  | _, _ => raise Unmodelled
  end.

(** All index tuples of an array of shape [sh], in row-major order. *)
Fixpoint indices (sh : list nat) : list (list nat) :=
  match sh with
  | [] => [[]]
  | n :: sh' => flat_map (fun i => map (cons i) (indices sh')) (seq 0 n)
  end.

(** The flat position of the index tuple [idx] in an array of shape [sh]. *)
Fixpoint ravel (sh idx : list nat) : nat :=
  match sh, idx with
  | n :: sh', i :: idx' => i * size_of sh' + ravel sh' idx'
  | _, _ => 0
  end.

(** Position of [x] in [l] (its length when absent). *)
Fixpoint index_of (x : nat) (l : list nat) : nat :=
  match l with
  | [] => 0
  | y :: l' => if decide (y = x) then 0 else S (index_of x l')
  end.

(** Modelled from the spec: [transpose] of econml/utilities.py, not among
    the sources; on a dense array it is [np.transpose].  Axis [k] of the
    result is axis [axes[k]] of [a]. *)
Definition transpose (a : ndarray) (axes : list nat) : result ndarray :=
  if decide (axes ≡ₚ seq 0 (ndim a))
  then
    let sh' := (fun ax => nth ax (shape a) 0) <$> axes in
    ok {| shape := sh';
          data := (fun idx' =>
                     let idx := (fun ax => nth (index_of ax axes) idx' 0)
                                  <$> seq 0 (ndim a) in
                     nth (ravel (shape a) idx) (data a) 0%Z)
                  <$> indices sh' |}
  else raise ValueError.

End Np.

Export Np.

(* ===================================================================== *)
(** ** What dml.py uses of sklearn *)
(* ===================================================================== *)

Module Sk.

(** A caller-supplied estimator: [fit(design, target)] changes it,
    [predict(design)] and the attribute [coef_] read it, [clone] gives an
    unfitted copy with the same parameters. *)
Class Estimator (Model : Type) : Type := {
  est_fit : Model -> ndarray -> ndarray -> Model * result unit;
  est_predict : Model -> ndarray -> result ndarray;
  est_coef : Model -> result ndarray;
  est_clone : Model -> Model
}.

(** A caller-supplied featurizer: [fit_transform(X)] refits it and
    returns the design matrix. *)
Class Transformer (Fz : Type) : Type := {
  fit_transform : Fz -> ndarray -> Fz * result ndarray;
  tr_clone : Fz -> Fz
}.

(** Modelled from the spec: the splitter of [fit] is
    [sklearn.model_selection.KFold], a library class that is not among the
    sources.  The spec asks for a deterministic splitter with disjoint,
    exhaustive test sets of roughly equal size.  The model is [KFold]
    without shuffling, as dml.py builds it: the test sets are consecutive
    blocks, the first [n mod k] of them one longer, and each training set
    is the rest of the rows. *)
Record KFold : Type := mk_KFold { n_splits : Z }.

(** Modelled from the spec: [KFold(n_splits)], which refuses fewer than
    two splits. *)
Definition KFold_init (n_splits : Z) : result KFold :=
  if decide (n_splits <= 1)%Z then raise ValueError
  else ok (mk_KFold n_splits).

Definition _num_samples (X : ndarray) : result nat :=
  match shape X with
  | [] => raise TypeError
  | n :: _ => ok n
  end.

Definition fold_sizes (k n : nat) : list nat :=
  (fun i => n / k + (if decide (i < n mod k) then 1 else 0)) <$> seq 0 k.

(** Consecutive blocks of the given sizes, from [start] on. *)
Fixpoint blocks (start : nat) (sizes : list nat) : list (list nat) :=
  match sizes with
  | [] => []
  | s :: sizes' => seq start s :: blocks (start + s) sizes'
  end.

Definition _iter_test_indices (kf : KFold) (n_samples : nat) : list (list nat) :=
  blocks 0 (fold_sizes (Z.to_nat (n_splits kf)) n_samples).

(** Modelled from the spec: [KFold.split(X)], the list of
    [(train_idxs, test_idxs)]; it refuses more splits than samples. *)
Definition KFold_split (kf : KFold) (X : ndarray)
  : result (list (list nat * list nat)) :=
  let? n_samples := _num_samples X in
  if decide (n_splits kf > Z.of_nat n_samples)%Z then raise ValueError
  else ok ((fun test => (filter (fun i => i ∉ test) (seq 0 n_samples), test))
             <$> _iter_test_indices kf n_samples).

End Sk.

Export Sk.

(* ===================================================================== *)
(** ** econml/dml.py *)
(* ===================================================================== *)

Module Dml.
Section Classes.

Context {Model Fz : Type} `{!Estimator Model} `{!Transformer Fz}.

(** [FirstStageWrapper]: a nuisance model and the side it serves. *)
Record FirstStageWrapper : Type := mk_FirstStageWrapper {
  _model : Model;
  _is_Y : bool
}.

(** [FinalWrapper]: its two attributes exist only once [fit] has set them. *)
Record FinalWrapper : Type := mk_FinalWrapper {
  _d_t : option (list nat);
  _d_y : option (list nat)
}.

(** The variables of [_DMLCateEstimatorBase.__init__] that the two wrapper
    classes capture: every wrapper of one estimator shares them. *)
Record closure : Type := mk_closure {
  featurizer : Fz;
  model_final : Model;
  sparseLinear : bool
}.

(** A call of a wrapped model's [fit]. *)
Inductive call : Type :=
| NuisanceFit (is_Y : bool) (design target : ndarray)
| FinalFit (design target : ndarray).

(** An estimator object.  [fit_calls] is a trace of the [fit] calls made
    on wrapped models, most recent first; nothing reads it. *)
Record estimator : Type := mk_estimator {
  _models_y : list FirstStageWrapper;
  _models_t : list FirstStageWrapper;
  _model_final : FinalWrapper;
  _n_splits : Z;
  cells : closure;
  fit_calls : list call
}.

Definition set_models_y (st : estimator) (l : list FirstStageWrapper) :=
  mk_estimator l (_models_t st) (_model_final st) (_n_splits st) (cells st)
               (fit_calls st).
Definition set_models_t (st : estimator) (l : list FirstStageWrapper) :=
  mk_estimator (_models_y st) l (_model_final st) (_n_splits st) (cells st)
               (fit_calls st).
Definition set_final (st : estimator) (w : FinalWrapper) :=
  mk_estimator (_models_y st) (_models_t st) w (_n_splits st) (cells st)
               (fit_calls st).
Definition set_cells (st : estimator) (c : closure) :=
  mk_estimator (_models_y st) (_models_t st) (_model_final st) (_n_splits st) c
               (fit_calls st).
Definition record_call (st : estimator) (c : call) :=
  mk_estimator (_models_y st) (_models_t st) (_model_final st) (_n_splits st)
               (cells st) (c :: fit_calls st).

(** The objects [self._models_y[idx]] and [self._models_t[idx]]. *)
Inductive ref : Type :=
| Models_y (idx : nat)
| Models_t (idx : nat).

Definition deref (r : ref) : M estimator FirstStageWrapper :=
  fun st =>
    match (match r with
           | Models_y idx => _models_y st !! idx
           | Models_t idx => _models_t st !! idx
           end) with
    | Some w => (st, ok w)
    | None => (st, raise IndexError)
    end.

Definition store (r : ref) (w : FirstStageWrapper) (st : estimator) : estimator :=
  match r with
  | Models_y idx => set_models_y st (<[idx := w]> (_models_y st))
  | Models_t idx => set_models_t st (<[idx := w]> (_models_t st))
  end.

(** Reading an attribute that may not have been set. *)
Definition getattr {A} (name : string) (v : option A) : M estimator A :=
  match v with
  | Some a => ret a
  | None => throw (AttributeError name)
  end.

(** [featurizer.fit_transform(X)], on the shared featurizer. *)
Definition featurizer_fit_transform (X : ndarray) : M estimator ndarray :=
  fun st =>
    let '(f', r) := fit_transform (featurizer (cells st)) X in
    (set_cells st (mk_closure f' (model_final (cells st)) (sparseLinear (cells st))),
     r).

(** *** FirstStageWrapper *)

Definition FirstStageWrapper_deepcopy (self : FirstStageWrapper) : FirstStageWrapper :=
  mk_FirstStageWrapper (est_clone (_model self)) (_is_Y self).

Definition FirstStageWrapper_combine (self : FirstStageWrapper) (X W : ndarray)
  : M estimator ndarray :=
  let! st := get in
  if _is_Y self && sparseLinear (cells st) then
    let! XW := lift (hstack [X; W]) in
    let! F := featurizer_fit_transform X in
    let! n := lift (shape0 XW) in
    let! B := lift (hstack [ones [n; 1]; F; W]) in
    lift (cross_product XW B)
  else
    let! F := featurizer_fit_transform X in
    lift (hstack [F; W]).

Definition FirstStageWrapper_fit (self : ref) (X W Target : ndarray)
  : M estimator unit :=
  let! w := deref self in
  let! D := FirstStageWrapper_combine w X W in
  fun st =>
    let '(m', r) := est_fit (_model w) D Target in
    (record_call (store self (mk_FirstStageWrapper m' (_is_Y w)) st)
                 (NuisanceFit (_is_Y w) D Target),
     r).

Definition FirstStageWrapper_predict (self : ref) (X W : ndarray)
  : M estimator ndarray :=
  let! w := deref self in
  let! D := FirstStageWrapper_combine w X W in
  lift (est_predict (_model w) D).

(** *** FinalWrapper *)

Definition FinalWrapper_fit (X T_res Y_res : ndarray) : M estimator unit :=
  modify (fun st => set_final st (mk_FinalWrapper (Some (shape_tail T_res))
                                                  (_d_y (_model_final st)))) ;;;
  modify (fun st => set_final st (mk_FinalWrapper (_d_t (_model_final st))
                                                  (Some (shape_tail Y_res)))) ;;;
  let! F := featurizer_fit_transform X in
  let! D := lift (cross_product F T_res) in
  fun st =>
    let '(m', r) := est_fit (model_final (cells st)) D Y_res in
    (record_call (set_cells st (mk_closure (featurizer (cells st)) m'
                                           (sparseLinear (cells st))))
                 (FinalFit D Y_res),
     r).

(** [self._d_t[0] if self._d_t else 1] *)
Definition d_t_eff (d_t : list nat) : nat :=
  match d_t with
  | d :: _ => d
  | [] => 1
  end.

Definition of_shape (sh : list nat) : list Z := Z.of_nat <$> sh.

Definition FinalWrapper_predict (X : ndarray) : M estimator ndarray :=
  let! st := get in
  let! d_t := getattr "_d_t" (_d_t (_model_final st)) in
  let eye := match d_t with
             | d :: _ => eye d
             | [] => array1 1
             end in
  let! flat_eye := lift (reshape eye [1; -1]%Z) in
  let! F := featurizer_fit_transform X in
  let! K := lift (kron flat_eye F) in
  let! m := lift (shape0 X) in
  let! XT := lift (reshape K [Z.of_nat (d_t_eff d_t * m); -1]%Z) in
  let! P := lift (est_predict (model_final (cells st)) XT) in
  let! d_y := getattr "_d_y" (_d_y (_model_final st)) in
  let! effects := lift (reshape P ((-1)%Z :: of_shape d_t ++ of_shape d_y)) in
  match d_t, d_y with
  | _ :: _, _ :: _ => lift (transpose effects [0; 2; 1])
  | _, _ => ret effects
  end.

Definition FinalWrapper_coef_ : M estimator ndarray :=
  let! st := get in
  let! c := lift (est_coef (model_final (cells st))) in
  let! d_y := getattr "_d_y" (_d_y (_model_final st)) in
  let! d_t := getattr "_d_t" (_d_t (_model_final st)) in
  lift (reshape c (of_shape d_y ++ of_shape d_t ++ [(-1)%Z])).

(** *** _RLearner *)

(** [range(n)] *)
Definition range (n : Z) : list nat := seq 0 (Z.to_nat n).

Definition RLearner_init (model_y model_t : FirstStageWrapper)
           (model_final : FinalWrapper) (n_splits : Z) (c : closure) : estimator :=
  {| _models_y := (fun _ => FirstStageWrapper_deepcopy model_y) <$> range n_splits;
     _models_t := (fun _ => FirstStageWrapper_deepcopy model_t) <$> range n_splits;
     _model_final := model_final;
     _n_splits := n_splits;
     cells := c;
     fit_calls := [] |}.

(** The body of the loop of [fit], for one fold. *)
Definition fit_fold (Y T X W : ndarray)
           (fold : nat * (list nat * list nat)) (res : ndarray * ndarray)
  : M estimator (ndarray * ndarray) :=
  let '(idx, (train_idxs, test_idxs)) := fold in
  let '(y_res, t_res) := res in
  let! Y_train := lift (take_rows Y train_idxs) in
  let! Y_test := lift (take_rows Y test_idxs) in
  let! T_train := lift (take_rows T train_idxs) in
  let! T_test := lift (take_rows T test_idxs) in
  let! X_train := lift (take_rows X train_idxs) in
  let! X_test := lift (take_rows X test_idxs) in
  let! W_train := lift (take_rows W train_idxs) in
  let! W_test := lift (take_rows W test_idxs) in
  FirstStageWrapper_fit (Models_t idx) X_train W_train T_train ;;;
  let! T_hat := FirstStageWrapper_predict (Models_t idx) X_test W_test in
  let! dT := lift (sub T_test T_hat) in
  let! t_res := lift (set_rows t_res test_idxs dT) in
  FirstStageWrapper_fit (Models_y idx) X_train W_train Y_train ;;;
  let! Y_hat := FirstStageWrapper_predict (Models_y idx) X_test W_test in
  let! dY := lift (sub Y_test Y_hat) in
  let! y_res := lift (set_rows y_res test_idxs dY) in
  ret (y_res, t_res).

(** The loop of [fit]: the residuals of all folds. *)
Definition cross_fit (Y T X W : ndarray) : M estimator (ndarray * ndarray) :=
  let y_res := zeros (shape Y) in
  let t_res := zeros (shape T) in
  let! st := get in
  let! kf := lift (KFold_init (_n_splits st)) in
  let! folds := lift (KFold_split kf X) in
  for_each (enumerate folds) (fit_fold Y T X W) (y_res, t_res).

(** The arguments of [fit] after the defaults and the assertion. *)
Definition fit_args (Y T : ndarray) (X W : option ndarray)
  : result (ndarray * ndarray) :=
  let? X := match X with
            | None => let? n := shape0 Y in ok (ones [n; 1])
            | Some X => ok X
            end in
  let? W := match W with
            | None => let? n := shape0 Y in ok (empty [n; 0])
            | Some W => ok W
            end in
  let? ny := shape0 Y in
  let? nt := shape0 T in
  if decide (ny = nt) then
    let? nx := shape0 X in
    if decide (nt = nx) then
      let? nw := shape0 W in
      if decide (nx = nw) then ok (X, W) else raise AssertionError
    else raise AssertionError
  else raise AssertionError.

Definition fit (Y T : ndarray) (X W : option ndarray) : M estimator unit :=
  let! (X, W) := lift (fit_args Y T X W) in
  let! (y_res, t_res) := cross_fit Y T X W in
  FinalWrapper_fit X t_res y_res.

Definition const_marginal_effect (X : option ndarray) : M estimator ndarray :=
  let X := match X with
           | None => ones [1; 1]
           | Some X => X
           end in
  FinalWrapper_predict X.

(** *** _DMLCateEstimatorBase and the configurations *)

Definition DMLCateEstimatorBase_init (model_y model_t model_final : Model)
           (featurizer : Fz) (sparseLinear : bool) (n_splits : Z) : estimator :=
  let featurizer := tr_clone featurizer in
  let model_final := est_clone model_final in
  RLearner_init (mk_FirstStageWrapper model_y true)
                (mk_FirstStageWrapper model_t false)
                (mk_FinalWrapper None None)
                n_splits
                (mk_closure featurizer model_final sparseLinear).

(** The property [coef_] of the estimator. *)
Definition coef_ : M estimator ndarray := FinalWrapper_coef_.

Definition DMLCateEstimator_init (model_y model_t model_final : Model)
           (featurizer : Fz) (n_splits : Z) : estimator :=
  DMLCateEstimatorBase_init model_y model_t model_final featurizer false n_splits.

Definition SparseLinearDMLCateEstimator_init
           (linear_model_y linear_model_t model_final : Model)
           (featurizer : Fz) (n_splits : Z) : estimator :=
  DMLCateEstimatorBase_init linear_model_y linear_model_t model_final featurizer
                            true n_splits.

End Classes.

Arguments FirstStageWrapper : clear implicits.
Arguments closure : clear implicits.
Arguments estimator : clear implicits.

End Dml.

Export Dml.

(* ===================================================================== *)
(** ** The naive synthetic design *)
(* ===================================================================== *)

(** The unit vector [e_j] of length [d]. *)
Definition unit_vector (d j : nat) : list Z :=
  (fun b => if decide (b = j) then 1%Z else 0%Z) <$> seq 0 d.

(** The naive synthetic design row for treatment dimension [j]: the
    feature row [f] in coefficient block [j] of [d] blocks, zeros in the
    other blocks. *)
Definition naive_row (d j : nat) (f : list Z) : list Z :=
  flat_map (fun b => if decide (b = j) then f else replicate (length f) 0%Z)
           (seq 0 d).

(** The naive synthetic design for [m] samples and [d] treatment
    dimensions: row [i * d + j] is the naive row of sample [i] for
    dimension [j]. *)
Definition naive_design (d m : nat) (F : ndarray) : ndarray :=
  {| shape := [d * m; d * ncols F];
     data := flat_map (fun i => flat_map (fun j => naive_row d j (row F i)) (seq 0 d))
                      (seq 0 m) |}.

(** The matrix of the single row [f]. *)
Definition single_row (f : list Z) : ndarray :=
  {| shape := [1; length f]; data := f |}.

(* ===================================================================== *)
(** ** The kernel configuration *)
(* ===================================================================== *)

Module Kernel.

(** The names bound at the top level of dml.py: its imports and its
    classes.  A name used in a function body is looked up here when the
    body runs. *)
Definition module_globals : list string :=
  ["np"; "copy"; "shape"; "reshape"; "ndim"; "hstack"; "cross_product";
   "transpose"; "KFold"; "LinearRegression"; "LassoCV"; "PolynomialFeatures";
   "FunctionTransformer"; "clone"; "Pipeline"; "LinearCateEstimator";
   "_RLearner"; "_DMLCateEstimatorBase"; "DMLCateEstimator";
   "SparseLinearDMLCateEstimator"; "KernelDMLCateEstimator"].

Definition load_global (globals : list string) (name : string) : result unit :=
  if decide (name ∈ globals) then ok tt else raise (NameError name).

(** A function that draws fresh parameters: only the number of its
    positional parameters matters here. *)
Record pyfun : Type := mk_pyfun { arity : nat }.

(** A draw is named by its rank among the draws made so far. *)
Definition params : Type := nat.

(** [collections.defaultdict]: a dict and the factory called, without
    arguments, for a missing key. *)
Record defaultdict : Type := mk_defaultdict {
  default_factory : pyfun;
  items : gmap nat params
}.

(** Calling a drawing function with [nargs] arguments; the state is the
    number of draws made. *)
Definition call_pyfun (f : pyfun) (nargs : nat) : M nat params :=
  if decide (nargs = arity f)
  then fun draws => (S draws, ok draws)
  else throw TypeError.

(** [d[key]] *)
Definition defaultdict_getitem (d : defaultdict) (key : nat)
  : M nat (defaultdict * params) :=
  match items d !! key with
  | Some v => ret (d, v)
  | None =>
      let! v := call_pyfun (default_factory d) 0 in
      ret (mk_defaultdict (default_factory d) (<[key := v]> (items d)), v)
  end.

Record RandomFeatures : Type := mk_RandomFeatures {
  omegas : defaultdict;
  biases : defaultdict
}.

(** [RandomFeatures.__init__]: both factories are [lambda d_x: ...]. *)
Definition RandomFeatures_init (globals : list string) : result RandomFeatures :=
  let? _ := load_global globals "defaultdict" in
  let omegas := mk_defaultdict (mk_pyfun 1) ∅ in
  let? _ := load_global globals "defaultdict" in
  let biases := mk_defaultdict (mk_pyfun 1) ∅ in
  ok (mk_RandomFeatures omegas biases).

(** [RandomFeatures.fit_transform], up to the parameters it projects
    with; the state is the featurizer and the number of draws. *)
Definition RandomFeatures_fit_transform (X : ndarray)
  : M (RandomFeatures * nat) (params * params) :=
  fun '(self, draws) =>
    match shape X !! 1 with
    | None => ((self, draws), raise IndexError)
    | Some d_x =>
        match defaultdict_getitem (omegas self) d_x draws with
        | (draws, inl e) => ((self, draws), inl e)
        | (draws, inr (om, o)) =>
            let self := mk_RandomFeatures om (biases self) in
            match defaultdict_getitem (biases self) d_x draws with
            | (draws, inl e) => ((self, draws), inl e)
            | (draws, inr (bi, b)) =>
                ((mk_RandomFeatures (omegas self) bi, draws), ok (o, b))
            end
        end
    end.

(** [KernelDMLCateEstimator.__init__] up to the featurizer it hands to
    [DMLCateEstimator.__init__]. *)
Definition KernelDMLCateEstimator_init (globals : list string)
  : result RandomFeatures :=
  RandomFeatures_init globals.

End Kernel.

(* ===================================================================== *)
(** ** Concrete estimators and featurizers *)
(* ===================================================================== *)

Module Toy.

(** Column [j] of the rows [rows]. *)
Definition column (rows : list (list Z)) (j : nat) : list Z :=
  (fun r => nth j r 0%Z) <$> rows.

Definition sumZ (l : list Z) : Z := foldr Z.add 0%Z l.

Definition dot (u v : list Z) : Z := sumZ (zip_with Z.mul u v).

Definition rows_of (a : ndarray) : list (list Z) :=
  match shape a with
  | [] => []
  | n :: _ => row a <$> seq 0 n
  end.

(** Two estimators: one predicts the (rounded) mean of its training
    target and has no coefficients; the other is linear without
    intercept, its coefficients the cross moments of design and target. *)
Inductive model : Type :=
| MeanRegressor (mean_ : option (list nat * list Z))
| MomentRegressor (coef : option ndarray).

Definition model_fit (m : model) (design target : ndarray) : model * result unit :=
  match shape target with
  | [] => (m, raise ValueError)
  | 0 :: _ => (m, raise ValueError)
  | n :: rest =>
      match m with
      | MeanRegressor _ =>
          let means := (fun j => (sumZ (column (rows_of target) j) / Z.of_nat n)%Z)
                         <$> seq 0 (size_of rest) in
          (MeanRegressor (Some (rest, means)), ok tt)
      | MomentRegressor _ =>
          match shape design with
          | [n'; c] =>
              if decide (n' = n)
              then
                let coef :=
                  flat_map (fun y => (fun j => dot (column (rows_of design) j)
                                                   (column (rows_of target) y))
                                       <$> seq 0 c)
                           (seq 0 (size_of rest)) in
                (MomentRegressor (Some {| shape := rest ++ [c]; data := coef |}),
                 ok tt)
              else (m, raise ValueError)
          | _ => (m, raise ValueError)
          end
      end
  end.

Definition model_predict (m : model) (design : ndarray) : result ndarray :=
  match shape design with
  | [r; c] =>
      match m with
      | MeanRegressor (Some (rest, means)) =>
          if decide (length means = size_of rest)
          then ok {| shape := r :: rest;
                     data := flat_map (fun _ => means) (seq 0 r) |}
          else raise ValueError
      | MomentRegressor (Some coef) =>
          if decide (last (shape coef) = Some c)
          then ok {| shape := r :: removelast (shape coef);
                     data := flat_map (fun i => (fun y => dot (row design i)
                                                              (chunk c (data coef) y))
                                                  <$> seq 0 (size_of (removelast (shape coef))))
                                      (seq 0 r) |}
          else raise ValueError
      | _ => raise (AttributeError "coef_")
      end
  | _ => raise ValueError
  end.

Definition model_coef (m : model) : result ndarray :=
  match m with
  | MomentRegressor (Some coef) => ok coef
  | _ => raise (AttributeError "coef_")
  end.

Definition model_clone (m : model) : model :=
  match m with
  | MeanRegressor _ => MeanRegressor None
  | MomentRegressor _ => MomentRegressor None
  end.

#[export] Instance model_estimator : Estimator model :=
  {| est_fit := model_fit;
     est_predict := model_predict;
     est_coef := model_coef;
     est_clone := model_clone |}.

(** [PolynomialFeatures(degree=1, include_bias=True)]: a column of ones
    before the features; fitting records the number of features. *)
Record poly1 : Type := mk_poly1 { n_features_in_ : option nat }.

Definition poly1_fit_transform (f : poly1) (X : ndarray) : poly1 * result ndarray :=
  match shape X with
  | [0; _] => (f, raise ValueError)
  | [n; d] => (mk_poly1 (Some d), hstack [ones [n; 1]; X])
  | _ => (f, raise ValueError)
  end.

#[export] Instance poly1_transformer : Transformer poly1 :=
  {| fit_transform := poly1_fit_transform;
     tr_clone := fun _ => mk_poly1 None |}.

(** A featurizer that passes its input through, also when it is empty. *)
Record passthrough : Type := mk_passthrough { calls : nat }.

#[export] Instance passthrough_transformer : Transformer passthrough :=
  {| fit_transform := fun f X => (mk_passthrough (S (calls f)), ok X);
     tr_clone := fun _ => mk_passthrough 0 |}.

(** A scaling featurizer with memory: it multiplies the features by the
    largest entry it has seen so far, over all its calls.  Calling it again
    on the same input gives the same matrix. *)
Record running : Type := mk_running { scale_ : Z }.

Definition running_fit_transform (f : running) (X : ndarray)
  : running * result ndarray :=
  match shape X with
  | [n; d] =>
      let s := Z.max (scale_ f) (foldr Z.max 0%Z (data X)) in
      (mk_running s, ok {| shape := [n; d]; data := Z.mul s <$> data X |})
  | _ => (f, raise ValueError)
  end.

#[export] Instance running_transformer : Transformer running :=
  {| fit_transform := running_fit_transform;
     tr_clone := fun _ => mk_running 0 |}.

(** Four samples, scalar outcome and treatment, one feature. *)
Definition Y4 : ndarray := {| shape := [4]; data := [3; 5; 8; 13]%Z |}.
Definition T4 : ndarray := {| shape := [4]; data := [1; 2; 3; 5]%Z |}.
Definition X4 : ndarray := {| shape := [4; 1]; data := [1; 0; 2; 1]%Z |}.
Definition W4 : ndarray := {| shape := [4; 2]; data := [1; 1; 0; 2; 1; 0; 3; 1]%Z |}.

(** Controls given as a vector of four entries rather than as a matrix. *)
Definition W_vec : ndarray := {| shape := [4]; data := [1; 0; 1; 3]%Z |}.

(** Four samples, two outcomes and three treatments. *)
Definition Y42 : ndarray :=
  {| shape := [4; 2]; data := [3; 1; 5; 0; 8; 2; 13; 1]%Z |}.
Definition T43 : ndarray :=
  {| shape := [4; 3]; data := [1; 0; 2; 2; 1; 0; 3; 1; 1; 5; 2; 0]%Z |}.

(** Three treatment rows, one fewer than the outcome has. *)
Definition T3 : ndarray := {| shape := [3]; data := [1; 2; 3]%Z |}.

(** A query without rows. *)
Definition X0 : ndarray := {| shape := [0; 1]; data := [] |}.

Definition dml (n_splits : Z) : estimator model poly1 :=
  DMLCateEstimator_init (MeanRegressor None) (MeanRegressor None)
                        (MomentRegressor None) (mk_poly1 None) n_splits.

(** The same with a featurizer that accepts an empty query. *)
Definition dml_passthrough (n_splits : Z) : estimator model passthrough :=
  DMLCateEstimator_init (MeanRegressor None) (MeanRegressor None)
                        (MomentRegressor None) (mk_passthrough 0) n_splits.

(** The same with a final model that has no coefficients. *)
Definition dml_nocoef (n_splits : Z) : estimator model poly1 :=
  DMLCateEstimator_init (MeanRegressor None) (MeanRegressor None)
                        (MeanRegressor None) (mk_poly1 None) n_splits.



(** The sparse-linear configuration of the same models. *)
Definition dml_sparse (n_splits : Z) : estimator model poly1 :=
  SparseLinearDMLCateEstimator_init (MeanRegressor None) (MeanRegressor None)
                                    (MomentRegressor None) (mk_poly1 None) n_splits.

(** The estimators after [fit] on the matrix-valued data. *)
Definition fitted42 : estimator model poly1 :=
  Eval vm_compute in fst (fit Y42 T43 (Some X4) None (dml 2)).

Definition fitted42_passthrough : estimator model passthrough :=
  Eval vm_compute in fst (fit Y42 T43 (Some X4) None (dml_passthrough 2)).

Definition fitted42_nocoef : estimator model poly1 :=
  Eval vm_compute in fst (fit Y42 T43 (Some X4) None (dml_nocoef 2)).


(** The featurized query [X4] and the final model's predictions on its
    synthetic rows. *)
Definition F4 : ndarray :=
  {| shape := [4; 2]; data := [1; 1; 1; 0; 1; 2; 1; 1]%Z |}.

Definition P42 : ndarray :=
  Eval vm_compute in
    match model_predict (model_final (cells fitted42)) (naive_design 3 4 F4) with
    | inr P => P
    | inl _ => zeros []
    end.

End Toy.


(* ===================================================================== *)
(** ** Vocabulary of the statements *)
(* ===================================================================== *)

Section Vocabulary.

Context {Model Fz : Type} `{!Estimator Model} `{!Transformer Fz}.

(** No [fit] has set the final wrapper's attributes yet. *)
Definition unfitted (st : estimator Model Fz) : Prop :=
  _d_t (_model_final st) = None.

(** The row count [fit] sees for an optional argument: an omitted [X] or
    [W] gets as many rows as [Y]. *)
Definition rows_of_arg (Y : ndarray) (A : option ndarray) : result nat :=
  match A with
  | Some A => shape0 A
  | None => shape0 Y
  end.

(** The trained state of an estimator: its nuisance wrappers, its final
    wrapper and the final model (the featurizer is not part of it). *)
Definition trained (st : estimator Model Fz)
  : list (FirstStageWrapper Model) * list (FirstStageWrapper Model)
    * FinalWrapper * Model :=
  (_models_y st, _models_t st, _model_final st, model_final (cells st)).

(** The dense design: [featurize(X)] next to [W]. *)
Definition dense_design (fz : Fz) (X W : ndarray) : result ndarray :=
  let? F := snd (fit_transform fz X) in
  hstack [F; W].

(** The sparse design: the cross product of [[X, W]] with
    [[1, featurize(X), W]]. *)
Definition sparse_design (fz : Fz) (X W : ndarray) : result ndarray :=
  let? XW := hstack [X; W] in
  let? F := snd (fit_transform fz X) in
  let? n := shape0 XW in
  let? B := hstack [ones [n; 1]; F; W] in
  cross_product XW B.

(** The four nuisance calls of fold [idx]: from state [s0], the treatment
    wrapper of the fold is fit on the training rows and predicts [T_hat]
    on the held-out rows, then the outcome wrapper of the fold is fit on the
    training rows and predicts [Y_hat] on the held-out rows, leaving state
    [s4]. *)
Definition fold_calls (Y T X W : ndarray) (idx : nat) (train test : list nat)
           (s0 s4 : estimator Model Fz) (Y_hat T_hat : ndarray) : Prop :=
  exists X_train W_train Y_train T_train X_test W_test s1 s2 s3,
    take_rows X train = ok X_train /\ take_rows W train = ok W_train /\
    take_rows Y train = ok Y_train /\ take_rows T train = ok T_train /\
    take_rows X test = ok X_test /\ take_rows W test = ok W_test /\
    FirstStageWrapper_fit (Models_t idx) X_train W_train T_train s0 = (s1, ok tt) /\
    FirstStageWrapper_predict (Models_t idx) X_test W_test s1 = (s2, ok T_hat) /\
    FirstStageWrapper_fit (Models_y idx) X_train W_train Y_train s2 = (s3, ok tt) /\
    FirstStageWrapper_predict (Models_y idx) X_test W_test s3 = (s4, ok Y_hat).

(** The fold a wrapper reference belongs to. *)
Definition ref_index (r : ref) : nat :=
  match r with
  | Models_y idx => idx
  | Models_t idx => idx
  end.

(** The wrappers of the folds other than [idx] are the same in both states. *)
Definition same_except (idx : nat) (s s' : estimator Model Fz) : Prop :=
  forall f, f ≠ idx ->
            _models_y s' !! f = _models_y s !! f /\
            _models_t s' !! f = _models_t s !! f.

(** What [FinalWrapper.predict] returns, as a function of the final
    wrapper, the final model and the outcome of the featurizer's call. *)
Definition predict_with (fw : FinalWrapper) (mf : Model) (X : ndarray)
           (rF : result ndarray) : result ndarray :=
  match _d_t fw with
  | None => raise (AttributeError "_d_t")
  | Some d_t =>
      let eye := match d_t with
                 | d :: _ => eye d
                 | [] => array1 1
                 end in
      let? flat_eye := reshape eye [1; -1]%Z in
      let? F := rF in
      let? K := kron flat_eye F in
      let? m := shape0 X in
      let? XT := reshape K [Z.of_nat (d_t_eff d_t * m); -1]%Z in
      let? P := est_predict mf XT in
      match _d_y fw with
      | None => raise (AttributeError "_d_y")
      | Some d_y =>
          let? effects := reshape P ((-1)%Z :: of_shape d_t ++ of_shape d_y) in
          match d_t, d_y with
          | _ :: _, _ :: _ => transpose effects [0; 2; 1]
          | _, _ => ok effects
          end
      end
  end.

End Vocabulary.

Section Frames.

Context {Model Fz : Type} `{!Estimator Model} `{!Transformer Fz}.

(** The wrapper that a reference denotes in a state, if the index is in
    range. *)
Definition lookup_ref (r : ref) (s : estimator Model Fz)
  : option (FirstStageWrapper Model) :=
  match r with
  | Models_y idx => _models_y s !! idx
  | Models_t idx => _models_t s !! idx
  end.

(** Nothing but the shared featurizer differs between the two states. *)
Definition only_featurizer (s s' : estimator Model Fz) : Prop :=
  _models_y s' = _models_y s /\ _models_t s' = _models_t s /\
  _model_final s' = _model_final s /\ _n_splits s' = _n_splits s /\
  model_final (cells s') = model_final (cells s) /\
  sparseLinear (cells s') = sparseLinear (cells s) /\
  fit_calls s' = fit_calls s.

(** The configuration is the same in both states: the number of splits,
    the sparse flag, and the side of every wrapper, position by position
    (so also the number of wrappers). *)
Definition same_config (s s' : estimator Model Fz) : Prop :=
  _n_splits s' = _n_splits s /\
  sparseLinear (cells s') = sparseLinear (cells s) /\
  _is_Y <$> _models_y s' = _is_Y <$> _models_y s /\
  _is_Y <$> _models_t s' = _is_Y <$> _models_t s.

Definition is_nuisance_call (c : call) : Prop :=
  match c with
  | NuisanceFit _ _ _ => True
  | FinalFit _ _ => False
  end.

(** From [s] to [s'] the final wrapper and the final model were left
    alone: they are the same, and the fit calls made in between were all
    on nuisance models. *)
Definition final_untouched (s s' : estimator Model Fz) : Prop :=
  _model_final s' = _model_final s /\
  model_final (cells s') = model_final (cells s) /\
  exists new, fit_calls s' = new ++ fit_calls s /\ Forall is_nuisance_call new.

(** Wrapper [w'] is what one successful [fit] of wrapper [w] on
    [(X, W, Target)] leaves behind: the same side, and the model that the
    wrapped model's [fit] returned on the design of [w] (built with the
    featurizer as it was at the time). *)
Definition fitted_on (sparse : bool) (w w' : FirstStageWrapper Model)
           (X W Target : ndarray) : Prop :=
  _is_Y w' = _is_Y w /\
  exists (fz : Fz) (D : ndarray),
    (if _is_Y w && sparse then sparse_design fz X W else dense_design fz X W)
    = ok D /\
    est_fit (_model w) D Target = (_model w', ok tt).

(** Between the states [s] and [s'] the two wrappers of fold [idx] were
    each fit once, on the training rows [train] of the fold. *)
Definition fold_models (Y T X W : ndarray) (idx : nat) (train : list nat)
           (s s' : estimator Model Fz) : Prop :=
  exists wy wt wy' wt' X_train W_train Y_train T_train,
    _models_y s !! idx = Some wy /\ _models_t s !! idx = Some wt /\
    _models_y s' !! idx = Some wy' /\ _models_t s' !! idx = Some wt' /\
    take_rows X train = ok X_train /\ take_rows W train = ok W_train /\
    take_rows Y train = ok Y_train /\ take_rows T train = ok T_train /\
    fitted_on (sparseLinear (cells s)) wy wy' X_train W_train Y_train /\
    fitted_on (sparseLinear (cells s)) wt wt' X_train W_train T_train.

End Frames.

(** Every run of [m] relates the state before to the state after by [R]. *)
Definition preserves {S A} (R : S -> S -> Prop) (m : M S A) : Prop :=
  forall s s' r, m s = (s', r) -> R s s'.

(* ===================================================================== *)
(** ** Stateful calls: inversion *)
(* ===================================================================== *)

Lemma bind_ok {S A B} (m : M S A) (k : A -> M S B) s s' b :
  bind m k s = (s', inr b) ->
  exists a s1, m s = (s1, inr a) /\ k a s1 = (s', inr b).
Proof.
  unfold bind. destruct (m s) as [s1 [e|a]]; [discriminate|]. eauto.
Qed.

Lemma bind_eq_ok {S A B} (m : M S A) (k : A -> M S B) s s1 a :
  m s = (s1, inr a) -> bind m k s = k a s1.
Proof. unfold bind. intros ->. reflexivity. Qed.

Lemma bind_eq_err {S A B} (m : M S A) (k : A -> M S B) s s1 e :
  m s = (s1, inl e) -> bind m k s = (s1, inl e).
Proof. unfold bind. intros ->. reflexivity. Qed.

Lemma lift_ok {S A} (r : result A) (s s' : S) a :
  lift r s = (s', inr a) -> s' = s /\ r = inr a.
Proof. unfold lift. intros [= -> ->]. auto. Qed.

Lemma bindR_ok {A B} (r : result A) (k : A -> result B) b :
  bindR r k = inr b -> exists a, r = inr a /\ k a = inr b.
Proof. destruct r; simpl; [discriminate|eauto]. Qed.

Lemma bind_lift {S A B} (r : result A) (k : A -> M S B) s :
  bind (lift r) k s = match r with
                      | inl e => (s, inl e)
                      | inr a => k a s
                      end.
Proof. destruct r; reflexivity. Qed.

(** Decompose a successful run into the successful runs of its steps. *)
Ltac inv_run :=
  repeat match goal with
    | H : _ = (_, ok _) |- _ => unfold ok in H
    | H : _ = ok _ |- _ => unfold ok in H
    | H : bind _ _ _ = (_, inr _) |- _ =>
        let a := fresh "a" in let s := fresh "s" in
        let H1 := fresh "Hstep" in let H2 := fresh "Hrest" in
        apply bind_ok in H; destruct H as (a & s & H1 & H2)
    | H : lift _ _ = (_, inr _) |- _ =>
        let E := fresh "E" in
        apply lift_ok in H; destruct H as [-> E]
    | H : ret _ _ = (_, inr _) |- _ => unfold ret in H; injection H as <- <-
    | H : get _ = (_, inr _) |- _ => unfold get in H; injection H as <- <-
    | H : bindR _ _ = inr _ |- _ =>
        let a := fresh "a" in let E := fresh "E" in
        apply bindR_ok in H; destruct H as (a & E & H)
    end.

(* ===================================================================== *)
(** ** Failures before any model is fit (C4, C10) *)
(* ===================================================================== *)

Section FailFast.

Context {Model Fz : Type} `{!Estimator Model} `{!Transformer Fz}.
Implicit Types st : estimator Model Fz.

Lemma predict_unfitted st X :
  unfitted st ->
  FinalWrapper_predict X st = (st, raise (AttributeError "_d_t")).
Proof.
  unfold unfitted, FinalWrapper_predict, bind, get, getattr, throw.
  intros ->. reflexivity.
Qed.

Lemma init_unfitted (my mt mf : Model) (fz : Fz) sparse k :
  unfitted (DMLCateEstimatorBase_init my mt mf fz sparse k).
Proof. reflexivity. Qed.

Lemma default_X_rows Y (X : option ndarray) n :
  rows_of_arg Y X = ok n ->
  exists X',
    match X with
    | None => let? n := shape0 Y in ok (ones [n; 1])
    | Some X => ok X
    end = ok X' /\ shape0 X' = ok n.
Proof.
  destruct X as [X|]; simpl; intros H.
  - eauto.
  - rewrite H. simpl. eauto.
Qed.

Lemma default_W_rows Y (W : option ndarray) n :
  rows_of_arg Y W = ok n ->
  exists W',
    match W with
    | None => let? n := shape0 Y in ok (empty [n; 0])
    | Some W => ok W
    end = ok W' /\ shape0 W' = ok n.
Proof.
  destruct W as [W|]; simpl; intros H.
  - eauto.
  - rewrite H. simpl. eauto.
Qed.

Lemma fit_args_agree Y T X W n :
  shape0 Y = ok n -> shape0 T = ok n ->
  rows_of_arg Y X = ok n -> rows_of_arg Y W = ok n ->
  exists X' W', fit_args Y T X W = ok (X', W') /\ shape0 X' = ok n.
Proof.
  intros HY HT HX HW. unfold fit_args.
  destruct (default_X_rows _ _ _ HX) as (X' & -> & HX').
  destruct (default_W_rows _ _ _ HW) as (W' & -> & HW').
  simpl. rewrite HY, HT. simpl. rewrite decide_True by done.
  rewrite HX'. simpl. rewrite decide_True by done.
  rewrite HW'. simpl. rewrite decide_True by done.
  eauto.
Qed.

Lemma fit_args_mismatch Y T X W ny nt nx nw :
  shape0 Y = ok ny -> shape0 T = ok nt ->
  rows_of_arg Y X = ok nx -> rows_of_arg Y W = ok nw ->
  ~ (ny = nt /\ nt = nx /\ nx = nw) ->
  fit_args Y T X W = raise AssertionError.
Proof.
  intros HY HT HX HW Hne. unfold fit_args.
  destruct (default_X_rows _ _ _ HX) as (X' & -> & HX').
  destruct (default_W_rows _ _ _ HW) as (W' & -> & HW').
  simpl. rewrite HY, HT. simpl.
  destruct (decide (ny = nt)); [|reflexivity].
  rewrite HX'. simpl.
  destruct (decide (nt = nx)); [|reflexivity].
  rewrite HW'. simpl.
  destruct (decide (nx = nw)); [|reflexivity].
  exfalso. auto.
Qed.

(** C4.  When the row counts of [Y], [T], [X] and [W] are not all equal,
    [fit] raises the assertion's error and returns the estimator as it got
    it: no wrapped model was fit (the trace of fit calls is the same), an
    unfitted estimator is still unfitted, and a later
    [const_marginal_effect] fails on the attribute that [fit] never set. *)
Theorem fit_row_mismatch_aborts st Y T X W ny nt nx nw :
  shape0 Y = ok ny -> shape0 T = ok nt ->
  rows_of_arg Y X = ok nx -> rows_of_arg Y W = ok nw ->
  ~ (ny = nt /\ nt = nx /\ nx = nw) ->
  let st' := fst (fit Y T X W st) in
  snd (fit Y T X W st) = raise AssertionError /\
  st' = st /\
  fit_calls st' = fit_calls st /\
  (unfitted st ->
   unfitted st' /\
   forall Xq, snd (const_marginal_effect Xq st') = raise (AttributeError "_d_t")).
Proof.
  intros HY HT HX HW Hne st'.
  assert (fit Y T X W st = (st, raise AssertionError)) as Hfit.
  { unfold fit. erewrite bind_eq_err; [reflexivity|].
    unfold lift. by rewrite (fit_args_mismatch _ _ _ _ _ _ _ _ HY HT HX HW Hne). }
  subst st'. rewrite Hfit. simpl. repeat split; auto.
  intros Xq. unfold const_marginal_effect. by rewrite predict_unfitted.
Qed.

Lemma cross_fit_too_few_rows st Y T X W n :
  shape0 X = ok n -> (Z.of_nat n < _n_splits st)%Z ->
  cross_fit Y T X W st = (st, raise ValueError).
Proof.
  intros HX Hlt. unfold cross_fit.
  erewrite bind_eq_ok by reflexivity.
  unfold KFold_init. destruct (decide (_n_splits st <= 1)%Z).
  { erewrite bind_eq_err; reflexivity. }
  erewrite bind_eq_ok by reflexivity.
  erewrite bind_eq_err; [reflexivity|].
  unfold lift, KFold_split, _num_samples. simpl.
  unfold shape0 in HX. destruct (shape X); [discriminate|].
  injection HX as ->. simpl. by rewrite decide_True by lia.
Qed.

(** C10.  When the common row count is smaller than the configured number
    of splits, [fit] raises the splitter's error and returns the estimator
    as it got it: no wrapped model's [fit] was called, the model instances
    are the same, an unfitted estimator is still unfitted and a later
    prediction fails on the attribute that [fit] never set. *)
Theorem fit_too_few_rows_aborts st Y T X W n :
  shape0 Y = ok n -> shape0 T = ok n ->
  rows_of_arg Y X = ok n -> rows_of_arg Y W = ok n ->
  (Z.of_nat n < _n_splits st)%Z ->
  let st' := fst (fit Y T X W st) in
  snd (fit Y T X W st) = raise ValueError /\
  st' = st /\
  fit_calls st' = fit_calls st /\
  (unfitted st ->
   unfitted st' /\
   forall Xq, snd (const_marginal_effect Xq st') = raise (AttributeError "_d_t")).
Proof.
  intros HY HT HX HW Hlt st'.
  destruct (fit_args_agree _ _ _ _ _ HY HT HX HW) as (X' & W' & Hargs & HX').
  assert (fit Y T X W st = (st, raise ValueError)) as Hfit.
  { unfold fit. erewrite bind_eq_ok by (unfold lift; rewrite Hargs; reflexivity).
    cbv beta iota. erewrite bind_eq_err; [reflexivity|].
    by apply cross_fit_too_few_rows with (n := n). }
  subst st'. rewrite Hfit. simpl. repeat split; auto.
  intros Xq. unfold const_marginal_effect. by rewrite predict_unfitted.
Qed.

End FailFast.


(* ===================================================================== *)
(** ** The combination policies (C6) *)
(* ===================================================================== *)

Section Policies.

Context {Model Fz : Type} `{!Estimator Model} `{!Transformer Fz}.
Implicit Types st : estimator Model Fz.

Lemma combine_design st (w : FirstStageWrapper Model) X W :
  snd (FirstStageWrapper_combine w X W st)
  = if _is_Y w && sparseLinear (cells st)
    then sparse_design (featurizer (cells st)) X W
    else dense_design (featurizer (cells st)) X W.
Proof.
  unfold FirstStageWrapper_combine, sparse_design, dense_design.
  erewrite bind_eq_ok by reflexivity.
  destruct (_is_Y w && sparseLinear (cells st)).
  - unfold bind, lift, featurizer_fit_transform.
    destruct (hstack [X; W]) as [e|XW]; [reflexivity|]. simpl.
    destruct (fit_transform (featurizer (cells st)) X) as [f' [e|F]];
      [reflexivity|]. simpl.
    destruct (shape0 XW) as [e|n]; [reflexivity|]. simpl.
    destruct (hstack [ones [n; 1]; F; W]) as [e|B]; reflexivity.
  - unfold bind, lift, featurizer_fit_transform.
    destruct (fit_transform (featurizer (cells st)) X) as [f' [e|F]];
      reflexivity.
Qed.

Lemma init_flags (my mt mf : Model) (fz : Fz) sparse k :
  sparseLinear (cells (DMLCateEstimatorBase_init my mt mf fz sparse k)) = sparse /\
  Forall (fun w => _is_Y w = true)
         (_models_y (DMLCateEstimatorBase_init my mt mf fz sparse k)) /\
  Forall (fun w => _is_Y w = false)
         (_models_t (DMLCateEstimatorBase_init my mt mf fz sparse k)).
Proof.
  simpl. split; [reflexivity|].
  split; apply Forall_fmap, Forall_forall; intros; reflexivity.
Qed.

(** C6.  In the sparse-linear configuration the flag is on, every outcome
    wrapper combines [X] and [W] into the sparse design (the cross product
    of [[X, W]] with [[1, featurize(X), W]]) and every treatment wrapper
    into the dense design ([featurize(X)] next to [W]); in the dense
    configuration the flag is off and both sides use the dense design.  In
    any state, a wrapper uses the sparse design exactly when it is an
    outcome wrapper and the flag is on. *)
Theorem sparse_policy_outcome_only (my mt mf : Model) (fz : Fz) (k : Z) :
  let sp := SparseLinearDMLCateEstimator_init my mt mf fz k in
  let de := DMLCateEstimator_init my mt mf fz k in
  (sparseLinear (cells sp) = true /\
   Forall (fun w => forall X W,
               snd (FirstStageWrapper_combine w X W sp)
               = sparse_design (featurizer (cells sp)) X W) (_models_y sp) /\
   Forall (fun w => forall X W,
               snd (FirstStageWrapper_combine w X W sp)
               = dense_design (featurizer (cells sp)) X W) (_models_t sp)) /\
  (sparseLinear (cells de) = false /\
   Forall (fun w => forall X W,
               snd (FirstStageWrapper_combine w X W de)
               = dense_design (featurizer (cells de)) X W)
          (_models_y de ++ _models_t de)) /\
  (forall st (w : FirstStageWrapper Model) X W,
      snd (FirstStageWrapper_combine w X W st)
      = if _is_Y w && sparseLinear (cells st)
        then sparse_design (featurizer (cells st)) X W
        else dense_design (featurizer (cells st)) X W).
Proof.
  intros sp de. subst sp de.
  unfold SparseLinearDMLCateEstimator_init, DMLCateEstimator_init.
  destruct (init_flags my mt mf fz true k) as (Hs & Hsy & Hst).
  destruct (init_flags my mt mf fz false k) as (Hd & Hdy & Hdt).
  split; [|split].
  - split; [exact Hs|]. split.
    + eapply Forall_impl; [exact Hsy|]. intros w Hw X W.
      rewrite combine_design, Hw, Hs. reflexivity.
    + eapply Forall_impl; [exact Hst|]. intros w Hw X W.
      rewrite combine_design, Hw. reflexivity.
  - split; [exact Hd|]. apply Forall_app. split.
    + eapply Forall_impl; [exact Hdy|]. intros w Hw X W.
      rewrite combine_design, Hw, Hd. reflexivity.
    + eapply Forall_impl; [exact Hdt|]. intros w Hw X W.
      rewrite combine_design, Hw. reflexivity.
  - intros. apply combine_design.
Qed.

End Policies.

(* ===================================================================== *)
(** ** The kernel configuration (C7) *)
(* ===================================================================== *)

(** C7.  [KernelDMLCateEstimator.__init__] cannot build its featurizer:
    dml.py never imports [defaultdict], so [RandomFeatures()] raises
    [NameError].  Were the name imported, the featurizer would be built
    with two empty caches, and every [fit_transform] on a matrix would
    raise [TypeError] on the missing key, because the factory wants the
    width as an argument and [defaultdict] calls it without any: no
    parameter is ever drawn and nothing is ever cached. *)
Theorem kernel_featurizer_never_draws :
  Kernel.KernelDMLCateEstimator_init Kernel.module_globals
  = raise (NameError "defaultdict") /\
  let rf := Kernel.mk_RandomFeatures
              (Kernel.mk_defaultdict (Kernel.mk_pyfun 1) ∅)
              (Kernel.mk_defaultdict (Kernel.mk_pyfun 1) ∅) in
  Kernel.RandomFeatures_init ("defaultdict" :: Kernel.module_globals) = ok rf /\
  forall (m d_x : nat) (entries : list Z) (draws : nat),
    Kernel.RandomFeatures_fit_transform
      {| shape := [m; d_x]; data := entries |} (rf, draws)
    = ((rf, draws), raise TypeError).
Proof.
  split; [reflexivity|]. split; [reflexivity|].
  intros m d_x entries draws. reflexivity.
Qed.

(* ===================================================================== *)
(** ** Prediction reads the trained state (C9) *)
(* ===================================================================== *)

Ltac frame_done :=
  eexists; split; [reflexivity | cbn; repeat split; auto].

Section Repeatable.

Context {Model Fz : Type} `{!Estimator Model} `{!Transformer Fz}.
Implicit Types st : estimator Model Fz.

(** A prediction returns what [predict_with] says, leaves the trained
    state alone, and leaves the featurizer as it was or as its
    [fit_transform] on [X] left it. *)
Lemma predict_frame st X :
  exists st',
    FinalWrapper_predict X st
    = (st', predict_with (_model_final st) (model_final (cells st)) X
                         (snd (fit_transform (featurizer (cells st)) X))) /\
    trained st' = trained st /\
    fit_calls st' = fit_calls st /\
    _n_splits st' = _n_splits st /\
    sparseLinear (cells st') = sparseLinear (cells st) /\
    (featurizer (cells st') = featurizer (cells st) \/
     featurizer (cells st') = fst (fit_transform (featurizer (cells st)) X)).
Proof.
  unfold FinalWrapper_predict, predict_with.
  rewrite (bind_eq_ok _ _ st st st) by reflexivity.
  destruct (_d_t (_model_final st)) as [d_t|]; [|frame_done].
  rewrite (bind_eq_ok _ _ st st d_t) by reflexivity.
  rewrite bind_lift.
  destruct (reshape _ [1%Z; (-1)%Z]) as [e|flat_eye]; [frame_done|].
  unfold bind at 1, featurizer_fit_transform at 1.
  destruct (fit_transform (featurizer (cells st)) X) as [f' [e|F]];
    [frame_done|].
  cbn [bindR snd]. rewrite bind_lift.
  destruct (kron flat_eye F) as [e|K]; [frame_done|].
  rewrite bind_lift. cbn [bindR].
  destruct (shape0 X) as [e|m]; [frame_done|].
  rewrite bind_lift. cbn [bindR].
  destruct (reshape K _) as [e|XT]; [frame_done|].
  rewrite bind_lift. cbn [bindR].
  destruct (est_predict (model_final (cells st)) XT) as [e|P]; [frame_done|].
  destruct (_d_y (_model_final st)) as [d_y|]; [|frame_done].
  rewrite (bind_eq_ok _ _ _ _ d_y) by reflexivity.
  rewrite bind_lift. cbn [bindR].
  destruct (reshape P _) as [e|effects]; [frame_done|].
  destruct d_t, d_y; frame_done.
Qed.


End Repeatable.

(* ===================================================================== *)
(** ** Facts about arrays *)
(* ===================================================================== *)

Section ArrayFacts.

Lemma size_of_app (l1 l2 : list nat) :
  size_of (l1 ++ l2) = size_of l1 * size_of l2.
Proof.
  induction l1 as [|a l1 IH]; simpl; [lia|].
  unfold size_of in *. simpl. rewrite IH. lia.
Qed.

Lemma size_of_cons (a : nat) (l : list nat) : size_of (a :: l) = a * size_of l.
Proof. reflexivity. Qed.

Lemma of_shape_app (l1 l2 : list nat) :
  of_shape (l1 ++ l2) = of_shape l1 ++ of_shape l2.
Proof. unfold of_shape. apply fmap_app. Qed.

Lemma filter_known_of_shape (l : list nat) :
  filter (fun d => d ≠ (-1)%Z) (of_shape l) = of_shape l.
Proof.
  induction l as [|a l IH]; [reflexivity|].
  unfold of_shape in *. rewrite fmap_cons, filter_cons_True by lia.
  by rewrite IH.
Qed.

Lemma filter_unknown_of_shape (l : list nat) :
  filter (fun d => d = (-1)%Z) (of_shape l) = [].
Proof.
  induction l as [|a l IH]; [reflexivity|].
  unfold of_shape in *. rewrite fmap_cons, filter_cons_False by lia.
  exact IH.
Qed.

Lemma prod_of_shape (l : list nat) :
  foldr Z.mul 1%Z (of_shape l) = Z.of_nat (size_of l).
Proof.
  induction l as [|a l IH]; [reflexivity|].
  change (of_shape (a :: l)) with (Z.of_nat a :: of_shape l).
  change (size_of (a :: l)) with (a * size_of l).
  cbn [foldr]. rewrite IH. lia.
Qed.

Lemma prod_app (l1 l2 : list Z) :
  foldr Z.mul 1%Z (l1 ++ l2) = (foldr Z.mul 1%Z l1 * foldr Z.mul 1%Z l2)%Z.
Proof. induction l1 as [|a l1 IH]; simpl; [lia|]. rewrite IH. lia. Qed.

Lemma infer_of_shape (q : nat) (l : list nat) :
  (fun d => if decide (d = (-1)%Z) then q else Z.to_nat d) <$> of_shape l = l.
Proof.
  induction l as [|a l IH]; [reflexivity|].
  unfold of_shape in *. rewrite !fmap_cons, IH.
  rewrite decide_False by lia. by rewrite Nat2Z.id.
Qed.

(** A reshape with one unknown dimension succeeds when the entries fill
    [q] blocks of the known dimensions, and the unknown one becomes [q]. *)
Lemma reshape_infer (a : ndarray) (pre post : list nat) (q : nat) :
  length (data a) = size_of pre * q * size_of post ->
  size_of pre * size_of post ≠ 0 ->
  reshape a (of_shape pre ++ (-1)%Z :: of_shape post)
  = ok {| shape := pre ++ q :: post; data := data a |}.
Proof.
  intros Hlen Hnz. unfold reshape.
  rewrite decide_False; last first.
  { apply Forall_Exists_neg, Forall_app. unfold of_shape.
    split; [|apply Forall_cons; split; [lia|]];
      apply Forall_fmap, Forall_forall; intros; simpl; lia. }
  rewrite !filter_app.
  rewrite (filter_cons_True (fun d => d = (-1)%Z)) by done.
  rewrite (filter_cons_False (fun d => d ≠ (-1)%Z))
    by (intros Hc; apply Hc; reflexivity).
  rewrite !filter_unknown_of_shape, !filter_known_of_shape. simpl.
  rewrite prod_app, !prod_of_shape.
  rewrite decide_False by lia.
  assert (Z.of_nat (length (data a))
          = (Z.of_nat q * (Z.of_nat (size_of pre) * Z.of_nat (size_of post)))%Z)
    as Hsz by lia.
  rewrite Hsz, Z_mod_mult, decide_True by done.
  rewrite Z_div_mult by lia.
  rewrite fmap_app, fmap_cons, !infer_of_shape.
  rewrite decide_True by done. by rewrite Nat2Z.id.
Qed.

Lemma length_flat_map_const {A B} (f : A -> list B) (l : list A) (c : nat) :
  Forall (fun x => length (f x) = c) l ->
  length (flat_map f l) = length l * c.
Proof.
  induction 1 as [|x l Hx _ IH]; simpl; [reflexivity|].
  rewrite length_app, Hx, IH. lia.
Qed.

(** The [i]-th block of a concatenation of blocks of one length. *)
Lemma chunk_flat_map {A} (f : A -> list Z) (l : list A) (w i : nat) (x : A) :
  Forall (fun y => length (f y) = w) l ->
  l !! i = Some x ->
  chunk w (flat_map f l) i = f x.
Proof.
  unfold chunk. intros Hall. revert i.
  induction Hall as [|y l Hy Hall IH]; intros i Hi; [done|].
  destruct i as [|i]; simpl in *.
  - injection Hi as ->. rewrite drop_0, take_app_length'; done.
  - rewrite drop_app_ge by lia. rewrite Hy.
    replace (w + i * w - w) with (i * w) by lia. by apply IH.
Qed.

Lemma chunk_length (w : nat) (l : list Z) (n i : nat) :
  length l = n * w -> i < n -> length (chunk w l i) = w.
Proof.
  intros Hl Hi. unfold chunk. rewrite length_take, length_drop. nia.
Qed.

Lemma row_length (a : ndarray) n rest i :
  shape a = n :: rest -> wf a -> i < n -> length (row a i) = size_of rest.
Proof.
  intros Hs Hwf Hi. unfold row, shape_tail. rewrite Hs. simpl.
  apply chunk_length with (n := n); [|done].
  unfold wf in Hwf. by rewrite Hwf, Hs.
Qed.

Lemma chunk_zip_with (f : Z -> Z -> Z) (l1 l2 : list Z) (w i : nat) :
  chunk w (zip_with f l1 l2) i = zip_with f (chunk w l1 i) (chunk w l2 i).
Proof. unfold chunk. by rewrite zip_with_drop, zip_with_take. Qed.

Lemma eye_length (d : nat) : length (data (eye d)) = d * d.
Proof.
  simpl. rewrite length_flat_map_const with (c := d); [by rewrite length_seq|].
  apply Forall_forall. intros. by rewrite length_map, length_seq.
Qed.

End ArrayFacts.

(* ===================================================================== *)
(** ** Coefficient access (C8) *)
(* ===================================================================== *)

Section Coefficients.

Context {Model Fz : Type} `{!Estimator Model} `{!Transformer Fz}.
Implicit Types st : estimator Model Fz.

(** C8.  On a fitted estimator whose final model exposes coefficients that
    fill [feature_width] entries for each pair of an outcome and a
    treatment dimension, [coef_] returns those coefficients under the
    shape [d_y + d_t + (feature_width,)], where [d_y] and [d_t] are the
    trailing shapes recorded by [fit] (empty for a vector); when reading
    the final model's [coef_] raises, [coef_] raises the same error. *)
Theorem coef_reshapes_or_fails st :
  (forall (c : ndarray) (td yd : list nat) (feature_width : nat),
      _d_t (_model_final st) = Some td ->
      _d_y (_model_final st) = Some yd ->
      est_coef (model_final (cells st)) = ok c ->
      length (data c) = size_of yd * size_of td * feature_width ->
      size_of yd * size_of td ≠ 0 ->
      coef_ st = (st, ok {| shape := yd ++ td ++ [feature_width];
                            data := data c |})) /\
  (forall e : exn,
      est_coef (model_final (cells st)) = raise e ->
      coef_ st = (st, raise e)).
Proof.
  split.
  - intros c td yd fw Ht Hy Hc Hlen Hnz.
    unfold coef_, FinalWrapper_coef_.
    rewrite (bind_eq_ok _ _ st st st) by reflexivity.
    rewrite bind_lift, Hc. unfold ok.
    rewrite Hy, (bind_eq_ok _ _ st st yd) by reflexivity.
    rewrite Ht, (bind_eq_ok _ _ st st td) by reflexivity.
    unfold lift. f_equal.
    rewrite app_assoc, <- of_shape_app.
    change [(-1)%Z] with ((-1)%Z :: of_shape []).
    rewrite (reshape_infer c (yd ++ td) [] fw).
    + by rewrite <- app_assoc.
    + rewrite size_of_app. simpl. lia.
    + rewrite size_of_app. simpl. lia.
  - intros e He. unfold coef_, FinalWrapper_coef_.
    rewrite (bind_eq_ok _ _ st st st) by reflexivity.
    rewrite bind_lift, He. reflexivity.
Qed.

End Coefficients.

(* ===================================================================== *)
(** ** The Kronecker reconstruction (C2, C3) *)
(* ===================================================================== *)

Section Kronecker.

Lemma flat_map_flat_map {A B C} (g : B -> list C) (h : A -> list B) (l : list A) :
  flat_map g (flat_map h l) = flat_map (fun a => flat_map g (h a)) l.
Proof.
  induction l as [|a l IH]; [reflexivity|].
  simpl. by rewrite flat_map_app, IH.
Qed.

Lemma flat_map_of_map {A B C} (g : B -> list C) (h : A -> B) (l : list A) :
  flat_map g (map h l) = flat_map (fun a => g (h a)) l.
Proof. induction l as [|a l IH]; [reflexivity|]. simpl. by rewrite IH. Qed.

Lemma flat_map_of_fmap {A B C} (g : B -> list C) (h : A -> B) (l : list A) :
  flat_map g (h <$> l) = flat_map (fun a => g (h a)) l.
Proof.
  induction l as [|a l IH]; [reflexivity|].
  rewrite fmap_cons. cbn [flat_map]. by rewrite IH.
Qed.

Lemma map_mul_1 (f : list Z) : map (Z.mul 1) f = f.
Proof.
  induction f as [|x f IH]; [reflexivity|].
  cbn [map]. rewrite IH. f_equal. lia.
Qed.

Lemma map_mul_0 (f : list Z) : map (Z.mul 0) f = replicate (length f) 0%Z.
Proof. induction f as [|x f IH]; [reflexivity|]. cbn. by rewrite IH. Qed.

Lemma map_mul_1_r (f : list Z) : map (fun x => (x * 1)%Z) f = f.
Proof.
  induction f as [|x f IH]; [reflexivity|].
  cbn [map]. rewrite IH. f_equal. lia.
Qed.

Lemma map_mul_0_r (f : list Z) :
  map (fun x => (x * 0)%Z) f = replicate (length f) 0%Z.
Proof.
  induction f as [|x f IH]; [reflexivity|].
  cbn [map length replicate]. rewrite IH. f_equal. lia.
Qed.

(** Scaling a row by every entry of the identity, row by row, gives the
    naive rows of all treatment dimensions. *)
Lemma scale_by_eye (d : nat) (f : list Z) :
  flat_map (fun x => map (Z.mul x) f) (data (eye d))
  = flat_map (fun a => naive_row d a f) (seq 0 d).
Proof.
  cbn [data eye]. rewrite flat_map_flat_map.
  apply flat_map_ext. intros a.
  rewrite flat_map_of_map. unfold naive_row.
  apply flat_map_ext. intros b.
  destruct (decide (b = a)) as [->|Hne].
  - rewrite Nat.eqb_refl. apply map_mul_1.
  - rewrite (proj2 (Nat.eqb_neq a b)) by auto. apply map_mul_0.
Qed.

(** Scaling a row by every entry of a unit vector gives a naive row. *)
Lemma scale_by_unit (d j : nat) (f : list Z) :
  flat_map (fun x2 => map (fun x1 => (x1 * x2)%Z) f) (unit_vector d j)
  = naive_row d j f.
Proof.
  unfold unit_vector, naive_row. rewrite flat_map_of_fmap.
  apply flat_map_ext. intros b.
  destruct (decide (b = j)); [apply map_mul_1_r|apply map_mul_0_r].
Qed.

Lemma naive_row_length (d j : nat) (f : list Z) :
  length (naive_row d j f) = d * length f.
Proof.
  unfold naive_row.
  rewrite length_flat_map_const with (c := length f); [by rewrite length_seq|].
  apply Forall_forall. intros b _.
  destruct (decide (b = j)); [reflexivity|apply length_replicate].
Qed.

Lemma chunk_all (l : list Z) : chunk (length l) l 0 = l.
Proof. unfold chunk. simpl. by rewrite drop_0, firstn_all. Qed.

Lemma unit_vector_length (d j : nat) : length (unit_vector d j) = d.
Proof. unfold unit_vector. by rewrite length_fmap, length_seq. Qed.

Lemma row_matrix (F : ndarray) m p i :
  shape F = [m; p] -> row F i = chunk p (data F) i.
Proof.
  intros HF. unfold row, shape_tail. rewrite HF. simpl.
  by rewrite Nat.mul_1_r.
Qed.

Lemma row_matrix_length (F : ndarray) m p i :
  shape F = [m; p] -> wf F -> i < m -> length (row F i) = p.
Proof.
  intros HF Hwf Hi. rewrite (row_length F m [p] i HF Hwf Hi).
  simpl. lia.
Qed.

Lemma naive_block_length (d : nat) (F : ndarray) m p i :
  shape F = [m; p] -> wf F -> i < m ->
  length (flat_map (fun j => naive_row d j (row F i)) (seq 0 d)) = d * (d * p).
Proof.
  intros HF Hwf Hi.
  rewrite length_flat_map_const with (c := d * p); [by rewrite length_seq|].
  apply Forall_forall. intros j _.
  by rewrite naive_row_length, (row_matrix_length F m p i).
Qed.

Lemma naive_design_length (d : nat) (F : ndarray) m p :
  shape F = [m; p] -> wf F ->
  length (data (naive_design d m F)) = m * (d * (d * p)).
Proof.
  intros HF Hwf. cbn [data naive_design].
  rewrite length_flat_map_const with (c := d * (d * p)); [by rewrite length_seq|].
  apply Forall_forall. intros i Hi%elem_of_seq.
  apply naive_block_length with (m := m); [done..|lia].
Qed.

Lemma naive_design_wf (d : nat) (F : ndarray) m p :
  shape F = [m; p] -> wf F -> wf (naive_design d m F).
Proof.
  intros HF Hwf. unfold wf. rewrite (naive_design_length d F m p HF Hwf).
  cbn [shape naive_design]. unfold ncols. rewrite HF. simpl. lia.
Qed.

(** The identity (or the one-element array of the vector case) flattened
    to one row. *)
Lemma flat_eye_ok (td : list nat) :
  reshape (match td with
           | d :: _ => eye d
           | [] => array1 1
           end) [1; -1]%Z
  = ok {| shape := [1; d_t_eff td * d_t_eff td]; data := data (eye (d_t_eff td)) |}.
Proof.
  change [1%Z; (-1)%Z] with (of_shape [1] ++ (-1)%Z :: of_shape []).
  destruct td as [|d td].
  - rewrite (reshape_infer _ [1] [] 1); [reflexivity|reflexivity|done].
  - rewrite (reshape_infer _ [1] [] (d * d)); [reflexivity| |done].
    rewrite eye_length. simpl. lia.
Qed.

(** Its Kronecker product with the feature matrix holds the naive design. *)
Lemma kron_flat_eye (d : nat) (F : ndarray) m p :
  shape F = [m; p] ->
  kron {| shape := [1; d * d]; data := data (eye d) |} F
  = ok {| shape := [1 * m; d * d * p]; data := data (naive_design d m F) |}.
Proof.
  intros HF. unfold kron, as_matrix, ndim. cbn [shape]. rewrite HF.
  cbn [length Nat.max Nat.sub drop seq flat_map]. rewrite app_nil_r.
  unfold ok. do 2 f_equal. cbn [data naive_design].
  apply flat_map_ext. intros k.
  rewrite <- eye_length, chunk_all, <- (row_matrix F m p k HF).
  apply scale_by_eye.
Qed.

(** Reshaped to one row per sample and treatment dimension, it is the
    naive design. *)
Lemma reshape_to_naive (d : nat) (F : ndarray) m p sh :
  shape F = [m; p] -> wf F -> d * m ≠ 0 ->
  reshape {| shape := sh; data := data (naive_design d m F) |}
          [Z.of_nat (d * m); -1]%Z
  = ok (naive_design d m F).
Proof.
  intros HF Hwf Hnz.
  change [Z.of_nat (d * m); (-1)%Z]
    with (of_shape [d * m] ++ (-1)%Z :: of_shape []).
  rewrite (reshape_infer _ [d * m] [] (d * p)).
  - cbn. unfold naive_design, ncols. rewrite HF. reflexivity.
  - cbn [data]. rewrite (naive_design_length d F m p HF Hwf). simpl. lia.
  - simpl. lia.
Qed.

(** Block [i * d + j] of width [w] in a concatenation of [d * w]-long
    blocks is block [j] of the [i]-th of them. *)
Lemma chunk_nested {A} (G : A -> list Z) (l : list A) (d w i j : nat) (x : A) :
  Forall (fun y => length (G y) = d * w) l ->
  l !! i = Some x -> j < d ->
  chunk w (flat_map G l) (i * d + j) = chunk w (G x) j.
Proof.
  intros Hall Hi Hj.
  rewrite <- (chunk_flat_map G l (d * w) i x Hall Hi).
  unfold chunk.
  replace ((i * d + j) * w) with (i * (d * w) + j * w) by lia.
  rewrite <- drop_drop.
  set (L := drop (i * (d * w)) (flat_map G l)).
  rewrite !take_drop_commute, take_take.
  do 2 f_equal. nia.
Qed.

Lemma naive_design_row (d : nat) (F : ndarray) m p i j :
  shape F = [m; p] -> wf F -> i < m -> j < d ->
  row (naive_design d m F) (i * d + j) = naive_row d j (row F i).
Proof.
  intros HF Hwf Hi Hj.
  rewrite (row_matrix (naive_design d m F) (d * m) (d * p));
    [|cbn; unfold ncols; by rewrite HF].
  cbn [data naive_design].
  rewrite (chunk_nested _ (seq 0 m) d (d * p) i j i).
  - apply (chunk_flat_map (fun j => naive_row d j (row F i)) (seq 0 d) (d * p) j j).
    + apply Forall_forall. intros b _.
      by rewrite naive_row_length, (row_matrix_length F m p i).
    + by apply lookup_seq_lt.
  - apply Forall_forall. intros k Hk%elem_of_seq.
    apply naive_block_length with (m := m); [done..|lia].
  - by apply lookup_seq_lt.
  - done.
Qed.

End Kronecker.

Section Effects.

Context {Model Fz : Type} `{!Estimator Model} `{!Transformer Fz}.
Implicit Types st : estimator Model Fz.

Lemma size_of_d_t (td : list nat) : length td <= 1 -> size_of td = d_t_eff td.
Proof.
  destruct td as [|d [|? ?]]; simpl; intros; [reflexivity|lia|lia].
Qed.

Lemma indices_length (sh : list nat) : length (indices sh) = size_of sh.
Proof.
  induction sh as [|n sh IH]; [reflexivity|].
  cbn [indices]. rewrite length_flat_map_const with (c := size_of sh).
  - by rewrite length_seq.
  - apply Forall_forall. intros i _. by rewrite length_map.
Qed.

Lemma transpose_021 (e : ndarray) (m a b : nat) :
  shape e = [m; a; b] ->
  exists out, transpose e [0; 2; 1] = ok out /\ shape out = [m; b; a] /\ wf out.
Proof.
  intros He. unfold transpose, ndim. rewrite He. cbn [length seq].
  rewrite decide_True by (apply perm_skip, perm_swap).
  eexists. split; [reflexivity|]. split; [reflexivity|].
  unfold wf. cbn [data shape]. by rewrite length_fmap, indices_length.
Qed.

(** With a fitted final wrapper and a featurizer that returns an [m]-row
    matrix, [predict] asks the final model for its predictions on the
    naive design, reshapes them and transposes them when both the
    treatment and the outcome have a trailing dimension. *)
Lemma predict_via_naive st X (td yd : list nat) (F : ndarray) (f' : Fz) m p :
  _d_t (_model_final st) = Some td ->
  _d_y (_model_final st) = Some yd ->
  shape0 X = ok m ->
  fit_transform (featurizer (cells st)) X = (f', ok F) ->
  shape F = [m; p] -> wf F ->
  d_t_eff td * m ≠ 0 ->
  snd (FinalWrapper_predict X st)
  = (let? P := est_predict (model_final (cells st))
                           (naive_design (d_t_eff td) m F) in
     let? effects := reshape P ((-1)%Z :: of_shape td ++ of_shape yd) in
     match td, yd with
     | _ :: _, _ :: _ => transpose effects [0; 2; 1]
     | _, _ => ok effects
     end).
Proof.
  intros Ht Hy Hm Hft HF Hwf Hnz.
  destruct (predict_frame st X) as (st' & -> & _). cbn [snd].
  unfold predict_with. rewrite Ht, flat_eye_ok. cbn [bindR ok].
  rewrite Hft. cbn [snd bindR ok].
  rewrite (kron_flat_eye _ F m p HF). cbn [bindR ok].
  rewrite Hm. cbn [bindR ok]. rewrite (reshape_to_naive _ F m p _ HF Hwf Hnz).
  cbn [bindR ok]. rewrite Hy. reflexivity.
Qed.

Lemma reshape_predictions (P : ndarray) (td yd : list nat) (m : nat) :
  length td <= 1 ->
  shape P = d_t_eff td * m :: yd -> wf P ->
  0 < d_t_eff td -> 0 < size_of yd ->
  reshape P ((-1)%Z :: of_shape td ++ of_shape yd)
  = ok {| shape := m :: td ++ yd; data := data P |}.
Proof.
  intros Htd HP Hwf Hd Hy.
  rewrite <- of_shape_app.
  change ((-1)%Z :: of_shape (td ++ yd))
    with (of_shape [] ++ (-1)%Z :: of_shape (td ++ yd)).
  rewrite (reshape_infer P [] (td ++ yd) m); [reflexivity| |].
  - unfold wf in Hwf. rewrite Hwf, HP, size_of_app, size_of_cons.
    rewrite (size_of_d_t td Htd). simpl. lia.
  - rewrite size_of_app, (size_of_d_t td Htd). simpl. lia.
Qed.

(** C2, as amended.  Take a fitted estimator whose [fit] recorded the
    trailing shapes [td] of the treatment and [yd] of the outcome (each
    empty for a vector, one positive dimension for a matrix), and a query
    [X] of [m >= 1] rows on which the featurizer returns an [m]-row matrix.
    If the final model's prediction on the batch of synthetic rows has one
    row per synthetic row and the outcome's trailing shape, then
    [const_marginal_effect(X)] returns an array of shape [(m, d_y, d_t)]
    when both are matrices, and with the corresponding axis dropped when
    either is a vector: [(m, d_t)], [(m, d_y)] or [(m,)].  The width of [X]
    and of the featurized matrix play no part. *)
Theorem const_marginal_effect_shape st X (td yd : list nat) (F P : ndarray)
        (f' : Fz) (m p : nat) :
  _d_t (_model_final st) = Some td ->
  _d_y (_model_final st) = Some yd ->
  length td <= 1 -> length yd <= 1 ->
  0 < size_of td -> 0 < size_of yd ->
  shape0 X = ok m -> 1 <= m ->
  fit_transform (featurizer (cells st)) X = (f', ok F) ->
  shape F = [m; p] -> wf F ->
  est_predict (model_final (cells st)) (naive_design (d_t_eff td) m F) = ok P ->
  shape P = d_t_eff td * m :: yd -> wf P ->
  exists E,
    snd (const_marginal_effect (Some X) st) = ok E /\
    wf E /\
    shape E = m :: match td, yd with
                   | [d_t], [d_y] => [d_y; d_t]
                   | _, _ => td ++ yd
                   end.
Proof.
  intros Ht Hy Htd Hyd Hpt Hpy Hm Hm1 Hft HF Hwf HP HPs HPwf.
  assert (0 < d_t_eff td) as Hd by (by rewrite <- size_of_d_t).
  unfold const_marginal_effect.
  rewrite (predict_via_naive st X td yd F f' m p) by (try done; nia).
  rewrite HP. cbn [bindR ok].
  rewrite (reshape_predictions P td yd m) by done. cbn [bindR ok].
  assert (wf {| shape := m :: td ++ yd; data := data P |}) as Hwfe.
  { unfold wf in *. cbn [data shape]. rewrite HPwf, HPs, !size_of_cons.
    rewrite size_of_app, (size_of_d_t td Htd). lia. }
  destruct td as [|dt [|? ?]], yd as [|dy [|? ?]]; simpl in Htd, Hyd; try lia.
  - eauto.
  - eauto.
  - eexists. split; [reflexivity|]. split; [exact Hwfe|]. by rewrite app_nil_r.
  - destruct (transpose_021 {| shape := m :: [dt] ++ [dy]; data := data P |} m dt dy)
      as (out & -> & Hs & Hw); [reflexivity|]. eauto.
Qed.

(** A query without rows never gets an answer: whatever the featurizer
    and the final model do, the reshape to zero rows of unknown width
    raises. *)
Lemma empty_query_raises st X :
  shape0 X = ok 0 ->
  exists e, snd (const_marginal_effect (Some X) st) = raise e.
Proof.
  intros Hm. unfold const_marginal_effect.
  destruct (predict_frame st X) as (st' & -> & _). cbn [snd].
  unfold predict_with.
  destruct (_d_t (_model_final st)) as [td|]; [|eauto].
  destruct (reshape _ [1%Z; (-1)%Z]) as [e|fe]; [eauto|]. cbn [bindR ok].
  destruct (snd (fit_transform (featurizer (cells st)) X)) as [e|F]; [eauto|].
  cbn [bindR ok]. destruct (kron fe F) as [e|K]; [eauto|]. cbn [bindR ok].
  rewrite Hm. cbn [bindR ok]. rewrite Nat.mul_0_r.
  exists ValueError. reflexivity.
Qed.

(** C3.  On a fitted estimator and a query [X] of [m] rows with feature
    matrix [F], take a sample [i] and a treatment dimension [j].  The batch
    that [predict] builds (the identity flattened, its Kronecker product
    with [F], reshaped to one row per sample and dimension) is the naive
    design; its row for [i] and [j] carries [F_i] in block [j] and zeros
    elsewhere; that row is the design row that [fit]'s cross product builds
    from [F_i] and the unit treatment residual [e_j]; and when the final
    model's batch prediction agrees row by row with its prediction on each
    single row, the reshaped prediction at [[i, j]] is the model's
    prediction on that single synthetic row. *)
Theorem kron_design_is_naive_design st X (td yd : list nat) (F : ndarray)
        (f' : Fz) (m p i j : nat) :
  _d_t (_model_final st) = Some td ->
  _d_y (_model_final st) = Some yd ->
  length td <= 1 ->
  shape0 X = ok m ->
  fit_transform (featurizer (cells st)) X = (f', ok F) ->
  shape F = [m; p] -> wf F ->
  i < m -> j < d_t_eff td ->
  let d := d_t_eff td in
  let XT := naive_design d m F in
  let mf := model_final (cells st) in
  (let? flat_eye := reshape (match td with
                             | d :: _ => eye d
                             | [] => array1 1
                             end) [1; -1]%Z in
   let? K := kron flat_eye F in
   reshape K [Z.of_nat (d * m); -1]%Z) = ok XT /\
  snd (FinalWrapper_predict X st)
  = (let? P := est_predict mf XT in
     let? effects := reshape P ((-1)%Z :: of_shape td ++ of_shape yd) in
     match td, yd with
     | _ :: _, _ :: _ => transpose effects [0; 2; 1]
     | _, _ => ok effects
     end) /\
  shape XT = [d * m; d * p] /\
  row XT (i * d + j) = naive_row d j (row F i) /\
  cross_product (single_row (row F i))
                {| shape := 1 :: td; data := unit_vector d j |}
  = ok {| shape := [1; p * d]; data := naive_row d j (row F i) |} /\
  forall P : ndarray,
    est_predict mf XT = ok P ->
    shape P = d * m :: yd -> wf P -> 0 < size_of yd ->
    (forall r, r < d * m ->
               est_predict mf (single_row (row XT r))
               = ok {| shape := 1 :: yd; data := row P r |}) ->
    exists effects,
      reshape P ((-1)%Z :: of_shape td ++ of_shape yd) = ok effects /\
      shape effects = m :: td ++ yd /\
      est_predict mf (single_row (naive_row d j (row F i)))
      = ok {| shape := 1 :: yd;
              data := chunk (size_of yd) (data effects) (i * d + j) |}.
Proof.
  intros Ht Hy Htd Hm Hft HF Hwf Hi Hj d XT mf.
  assert (row XT (i * d + j) = naive_row d j (row F i)) as Hrow
      by (by apply naive_design_row with (p := p)).
  assert (length (row F i) = p) as Hlen
      by (by apply row_matrix_length with (m := m)).
  split; [|split; [|split; [|split; [exact Hrow|split]]]].
  - rewrite flat_eye_ok. cbn [bindR ok].
    rewrite (kron_flat_eye _ F m p HF). cbn [bindR ok].
    apply (reshape_to_naive d F m p _ HF Hwf). subst d. nia.
  - apply predict_via_naive with (f' := f') (p := p); try done. subst d. nia.
  - subst XT. cbn. unfold ncols. by rewrite HF.
  - unfold cross_product, single_row, ndim. cbn [shape length].
    rewrite decide_True by (simpl; lia).
    rewrite decide_True by done.
    unfold ok. do 2 f_equal.
    + unfold ncols. cbn [shape]. rewrite Hlen.
      destruct td as [|dt [|? ?]]; simpl in Htd; subst d; simpl;
        [reflexivity|reflexivity|lia].
    + cbn [seq flat_map]. rewrite app_nil_r.
      assert (row {| shape := [1; length (row F i)]; data := row F i |} 0
              = row F i) as ->.
      { unfold row at 1, shape_tail. cbn [shape tail data size_of foldr].
        rewrite Nat.mul_1_r. apply chunk_all. }
      assert (row {| shape := 1 :: td; data := unit_vector d j |} 0
              = unit_vector d j) as ->.
      { unfold row, shape_tail. cbn [shape tail data].
        rewrite (size_of_d_t td Htd). fold d.
        rewrite <- (unit_vector_length d j) at 1. apply chunk_all. }
      apply scale_by_unit.
  - intros P HP HPs HPwf Hpy Hrows.
    rewrite (reshape_predictions P td yd m) by (try done; subst d; lia).
    eexists. split; [reflexivity|]. split; [reflexivity|].
    cbn [data]. specialize (Hrows (i * d + j)).
    rewrite Hrow in Hrows. rewrite Hrows by nia.
    unfold row, shape_tail. by rewrite HPs.
Qed.

End Effects.

(* ===================================================================== *)
(** ** The splitter (C5) *)
(* ===================================================================== *)

Section Splitter.

Lemma blocks_concat (start : nat) (sizes : list nat) :
  concat (blocks start sizes) = seq start (sum_list sizes).
Proof.
  revert start. induction sizes as [|s sizes IH]; intros start; [reflexivity|].
  cbn [blocks concat sum_list sum_list_with]. by rewrite IH, seq_app.
Qed.

Lemma blocks_length (start : nat) (sizes : list nat) :
  length (blocks start sizes) = length sizes.
Proof.
  revert start. induction sizes as [|s sizes IH]; intros start; [reflexivity|].
  cbn [blocks length]. by rewrite IH.
Qed.

Lemma blocks_inhabited (start : nat) (sizes : list nat) :
  Forall (fun s => 0 < s) sizes ->
  Forall (fun b => b ≠ [] /\ NoDup b) (blocks start sizes).
Proof.
  intros H. revert start. induction H as [|s sizes Hs _ IH]; intros start.
  - constructor.
  - cbn [blocks]. constructor; [|apply IH]. split.
    + destruct s; [lia|discriminate].
    + apply NoDup_seq.
Qed.

Lemma sizes_sum (q r b k : nat) :
  sum_list ((fun i => q + (if decide (i < r) then 1 else 0)) <$> seq b k)
  = k * q + (Nat.min (b + k) r - Nat.min b r).
Proof.
  revert b. induction k as [|k IH]; intros b.
  - cbn. lia.
  - cbn [seq]. rewrite fmap_cons. cbn [sum_list sum_list_with].
    rewrite IH. unfold id. destruct (decide (b < r)); lia.
Qed.

Lemma fold_sizes_sum (k n : nat) : 0 < k -> sum_list (fold_sizes k n) = n.
Proof.
  intros Hk. unfold fold_sizes. rewrite sizes_sum.
  pose proof (Nat.mod_upper_bound n k ltac:(lia)).
  pose proof (Nat.div_mod_eq n k). lia.
Qed.

Lemma fold_sizes_positive (k n : nat) :
  0 < k -> k <= n -> Forall (fun s => 0 < s) (fold_sizes k n).
Proof.
  intros Hk Hn. unfold fold_sizes. apply Forall_fmap, Forall_forall.
  intros i _. simpl.
  assert (1 <= n / k) by (apply Nat.div_le_lower_bound; lia). lia.
Qed.

Lemma fold_sizes_length (k n : nat) : length (fold_sizes k n) = k.
Proof. unfold fold_sizes. by rewrite length_fmap, length_seq. Qed.

Lemma elem_of_concat_lookup {A} (ls : list (list A)) f l x :
  ls !! f = Some l -> x ∈ l -> x ∈ concat ls.
Proof.
  intros Hf Hx. apply list_elem_of_In, in_concat.
  exists l. split; [|by apply list_elem_of_In].
  apply list_elem_of_In. by eapply list_elem_of_lookup_2.
Qed.

Lemma elem_of_concat_inv {A} (ls : list (list A)) x :
  x ∈ concat ls -> exists f l, ls !! f = Some l /\ x ∈ l.
Proof.
  intros Hx%list_elem_of_In%in_concat. destruct Hx as (l & Hl & Hx).
  apply list_elem_of_In, list_elem_of_lookup in Hl as [f Hf].
  exists f, l. split; [done|by apply list_elem_of_In].
Qed.

(** In a concatenation without repetition, an element lies in one block. *)
Lemma NoDup_concat_disjoint {A} (ls : list (list A)) :
  NoDup (concat ls) ->
  forall f f' l l' x,
    ls !! f = Some l -> ls !! f' = Some l' -> x ∈ l -> x ∈ l' -> f = f'.
Proof.
  induction ls as [|a ls IH]; intros Hnd f f' l l' x Hf Hf' Hx Hx'; [done|].
  cbn [concat] in Hnd. apply NoDup_app in Hnd as (_ & Hdisj & Hnd).
  destruct f as [|f], f' as [|f']; simpl in Hf, Hf'.
  - done.
  - injection Hf as ->. exfalso. apply (Hdisj x Hx).
    by eapply elem_of_concat_lookup.
  - injection Hf' as ->. exfalso. apply (Hdisj x Hx').
    by eapply elem_of_concat_lookup.
  - f_equal. by eapply IH.
Qed.

(** What [KFold(k).split(X)] returns for [2 <= k <= n]. *)
Lemma KFold_split_ok (k : Z) (X : ndarray) (n : nat) :
  shape0 X = ok n -> (2 <= k <= Z.of_nat n)%Z ->
  KFold_init k = ok (mk_KFold k) /\
  KFold_split (mk_KFold k) X
  = ok ((fun test => (filter (fun i => i ∉ test) (seq 0 n), test))
          <$> blocks 0 (fold_sizes (Z.to_nat k) n)).
Proof.
  intros HX Hk. unfold KFold_init, KFold_split, _num_samples.
  rewrite decide_False by lia. split; [reflexivity|].
  unfold shape0 in HX. destruct (shape X); [discriminate|].
  injection HX as ->. cbn [bindR ok n_splits].
  by rewrite decide_False by lia.
Qed.

Lemma kfold_partition_facts (k : Z) (X : ndarray) (n : nat) :
  shape0 X = ok n -> (2 <= k <= Z.of_nat n)%Z ->
  exists kf folds,
    KFold_init k = ok kf /\
    KFold_split kf X = ok folds /\
    length folds = Z.to_nat k /\
    concat (snd <$> folds) = seq 0 n /\
    Forall (fun fold => snd fold ≠ [] /\ NoDup (snd fold) /\
                        forall i, i ∈ fst fold <-> i < n /\ i ∉ snd fold) folds /\
    (forall i, i < n <-> exists f fold, folds !! f = Some fold /\ i ∈ snd fold) /\
    (forall f f' fold fold' i,
        folds !! f = Some fold -> folds !! f' = Some fold' ->
        i ∈ snd fold -> i ∈ snd fold' -> f = f').
Proof.
  intros HX Hk.
  destruct (KFold_split_ok k X n HX Hk) as [Hinit Hsplit].
  set (tests := blocks 0 (fold_sizes (Z.to_nat k) n)) in *.
  assert (concat tests = seq 0 n) as Hcat.
  { subst tests. rewrite blocks_concat, fold_sizes_sum; [done|lia]. }
  assert (forall (l : list (list nat)),
             snd <$> ((fun test => (filter (fun i => i ∉ test) (seq 0 n), test)) <$> l)
             = l) as Hsnd.
  { intros l. rewrite <- list_fmap_compose. apply list_fmap_id. }
  eexists _, _. split; [exact Hinit|]. split; [exact Hsplit|].
  split; [|split; [by rewrite Hsnd|split; [|split]]].
  - subst tests. rewrite length_fmap, blocks_length, fold_sizes_length. done.
  - apply Forall_fmap. subst tests.
    eapply Forall_impl;
      [apply blocks_inhabited, fold_sizes_positive; lia|].
    intros test [Hne Hnd]. cbn. split; [done|]. split; [done|].
    intros i. rewrite list_elem_of_filter, elem_of_seq.
    split; intros [? ?]; (split; [lia || done|lia || done]).
  - intros i. split.
    + intros Hi. assert (i ∈ concat tests) as Hin
          by (rewrite Hcat; apply elem_of_seq; lia).
      apply elem_of_concat_inv in Hin as (f & l & Hf & Hl).
      exists f, (filter (fun i => i ∉ l) (seq 0 n), l).
      split; [|done]. by rewrite list_lookup_fmap, Hf.
    + intros (f & fold & Hf & Hi).
      rewrite list_lookup_fmap in Hf.
      destruct (tests !! f) as [l|] eqn:Hl; [|done].
      injection Hf as <-. cbn in Hi.
      assert (i ∈ concat tests) as Hin by (by eapply elem_of_concat_lookup).
      rewrite Hcat in Hin. apply elem_of_seq in Hin. lia.
  - intros f f' fold fold' i Hf Hf' Hi Hi'.
    rewrite list_lookup_fmap in Hf, Hf'.
    destruct (tests !! f) as [l|] eqn:Hl; [|done].
    destruct (tests !! f') as [l'|] eqn:Hl'; [|done].
    injection Hf as <-. injection Hf' as <-. cbn in Hi, Hi'.
    eapply (NoDup_concat_disjoint tests); [|exact Hl|exact Hl'|done|done].
    rewrite Hcat. apply NoDup_seq.
Qed.

(** A successful split was asked for [2 <= k <= n] splits. *)
Lemma KFold_split_inv (k : Z) (kf : KFold) (X : ndarray) (n : nat) folds :
  shape0 X = ok n -> KFold_init k = ok kf -> KFold_split kf X = ok folds ->
  (2 <= k <= Z.of_nat n)%Z.
Proof.
  intros HX. unfold KFold_init, KFold_split, _num_samples.
  destruct (decide (k <= 1)%Z); [done|]. intros [= <-].
  unfold shape0 in HX. destruct (shape X); [done|]. injection HX as ->.
  cbn [bindR ok n_splits]. destruct (decide _); [done|]. intros _. lia.
Qed.

(** C5, as amended.  For a number of splits [k] with [2 <= k <= n], the
    splitter that [fit] uses returns [k] folds whose test sets partition
    the row indices [0 .. n-1]: none is empty, a row index lies in a test
    set exactly when it is below [n], no index lies in the test sets of two
    folds, and each training set is the complement of its test set. *)
Theorem kfold_test_sets_partition (k : Z) (X : ndarray) (n : nat) :
  shape0 X = ok n -> (2 <= k <= Z.of_nat n)%Z ->
  exists kf folds,
    KFold_init k = ok kf /\
    KFold_split kf X = ok folds /\
    length folds = Z.to_nat k /\
    Forall (fun fold => snd fold ≠ [] /\ NoDup (snd fold) /\
                        forall i, i ∈ fst fold <-> i < n /\ i ∉ snd fold) folds /\
    (forall i, i < n <-> exists f fold, folds !! f = Some fold /\ i ∈ snd fold) /\
    (forall f f' fold fold' i,
        folds !! f = Some fold -> folds !! f' = Some fold' ->
        i ∈ snd fold -> i ∈ snd fold' -> f = f').
Proof.
  intros HX Hk.
  destruct (kfold_partition_facts k X n HX Hk)
    as (kf & folds & Hinit & Hsplit & Hlen & _ & Hfolds & Hcover & Hdisj).
  exists kf, folds. auto 10.
Qed.

End Splitter.

(* ===================================================================== *)
(** ** Reading and writing rows *)
(* ===================================================================== *)

Section Rows.

Lemma last_index_of_None (j : nat) (idxs : list nat) :
  j ∉ idxs -> last_index_of j idxs = None.
Proof.
  induction idxs as [|i idxs IH]; intros Hj; [reflexivity|].
  apply not_elem_of_cons in Hj as [Hne Hj]. cbn [last_index_of].
  rewrite IH by done. by rewrite decide_False by congruence.
Qed.

Lemma last_index_of_NoDup (idxs : list nat) (p j : nat) :
  NoDup idxs -> idxs !! p = Some j -> last_index_of j idxs = Some p.
Proof.
  intros Hnd. revert p. induction Hnd as [|i idxs Hi Hnd IH]; intros p Hp; [done|].
  cbn [last_index_of]. destruct p as [|p]; simpl in Hp.
  - injection Hp as ->. rewrite last_index_of_None by done.
    by rewrite decide_True.
  - by rewrite (IH p Hp).
Qed.

Lemma last_index_of_lookup (j : nat) (idxs : list nat) (p : nat) :
  last_index_of j idxs = Some p -> idxs !! p = Some j.
Proof.
  revert p. induction idxs as [|i idxs IH]; intros p Hp; [done|].
  cbn [last_index_of] in Hp.
  destruct (last_index_of j idxs) as [q|].
  - injection Hp as <-. by apply IH.
  - destruct (decide (i = j)) as [->|]; [|done]. by injection Hp as <-.
Qed.

Lemma take_rows_inv (a b : ndarray) (idxs : list nat) :
  take_rows a idxs = ok b ->
  exists n rest,
    shape a = n :: rest /\ Forall (fun i => i < n) idxs /\
    b = {| shape := length idxs :: rest; data := flat_map (row a) idxs |}.
Proof.
  unfold take_rows. destruct (shape a) as [|n rest]; [done|].
  destruct (decide _); [|done]. intros [= <-]. eauto.
Qed.

Lemma take_rows_wf (a b : ndarray) (idxs : list nat) :
  wf a -> take_rows a idxs = ok b -> wf b.
Proof.
  intros Hwf (n & rest & Hs & Hall & ->)%take_rows_inv.
  unfold wf. cbn [data shape]. rewrite size_of_cons.
  apply length_flat_map_const. eapply Forall_impl; [exact Hall|].
  intros i Hi. by apply row_length with (n := n).
Qed.

Lemma take_rows_row (a b : ndarray) (idxs : list nat) (p i : nat) :
  wf a -> take_rows a idxs = ok b -> idxs !! p = Some i ->
  row b p = row a i.
Proof.
  intros Hwf (n & rest & Hs & Hall & ->)%take_rows_inv Hp.
  unfold row at 1, shape_tail. cbn [data shape tail].
  apply chunk_flat_map with (i := p); [|done].
  eapply Forall_impl; [exact Hall|].
  intros k Hk. by apply row_length with (n := n).
Qed.

Lemma sub_inv (a b c : ndarray) :
  sub a b = ok c ->
  shape a = shape b /\
  c = {| shape := shape a; data := zip_with Z.sub (data a) (data b) |}.
Proof.
  unfold sub. destruct (decide _); [|done]. intros [= <-]. auto.
Qed.

Lemma sub_wf (a b c : ndarray) : wf a -> wf b -> sub a b = ok c -> wf c.
Proof.
  intros Ha Hb (Hs & ->)%sub_inv. unfold wf in *. cbn [data shape].
  rewrite length_zip_with, Ha, Hb, Hs. lia.
Qed.

Lemma sub_row (a b c : ndarray) (p : nat) :
  sub a b = ok c -> row c p = zip_with Z.sub (row a p) (row b p).
Proof.
  intros (Hs & ->)%sub_inv. unfold row, shape_tail. cbn [data shape].
  rewrite <- Hs. apply chunk_zip_with.
Qed.

Lemma set_rows_spec (a rhs a' : ndarray) (idxs : list nat) (n : nat) (rest : list nat) :
  shape a = n :: rest -> wf a -> wf rhs ->
  set_rows a idxs rhs = ok a' ->
  shape a' = shape a /\ wf a' /\
  Forall (fun i => i < n) idxs /\
  forall j, j < n ->
            row a' j = match last_index_of j idxs with
                       | Some p => row rhs p
                       | None => row a j
                       end.
Proof.
  intros Hs Hwf Hrhs. unfold set_rows. rewrite Hs.
  destruct (decide _) as [Hall|]; [|done].
  destruct (decide _) as [Hsr|]; [|done]. intros [= <-].
  set (g := fun j => match last_index_of j idxs with
                     | Some p => row rhs p
                     | None => row a j
                     end).
  assert (Forall (fun k => length (g k) = size_of rest) (seq 0 n)) as Hg.
  { apply Forall_forall. intros k Hk%elem_of_seq. subst g. cbn beta.
    destruct (last_index_of k idxs) as [p|] eqn:Hp.
    - apply last_index_of_lookup, lookup_lt_Some in Hp.
      by apply row_length with (n := length idxs).
    - apply row_length with (n := n); [done..|lia]. }
  split; [reflexivity|]. split; [|split; [exact Hall|]].
  - unfold wf. cbn [data shape]. rewrite size_of_cons.
    rewrite (length_flat_map_const _ _ _ Hg). by rewrite length_seq.
  - intros j Hj. unfold row at 1, shape_tail. cbn [data shape tail].
    apply (chunk_flat_map g (seq 0 n) (size_of rest) j j Hg).
    by apply lookup_seq_lt.
Qed.

(** One nuisance target in one fold: the residual rows written at the
    held-out positions, the other rows left alone. *)
Lemma residual_rows (A A_test A_hat dA res res' : ndarray) (test : list nat) (n : nat) :
  wf A -> wf res -> shape res = shape A -> shape0 A = ok n ->
  take_rows A test = ok A_test -> wf A_hat ->
  sub A_test A_hat = ok dA ->
  set_rows res test dA = ok res' ->
  NoDup test ->
  wf res' /\ shape res' = shape A /\
  (forall p i, test !! p = Some i ->
               row res' i = zip_with Z.sub (row A i) (row A_hat p)) /\
  (forall i, i < n -> i ∉ test -> row res' i = row res i).
Proof.
  intros HA Hres Hshape Hn Htake Hhat Hsub Hset Hnd.
  unfold shape0 in Hn. destruct (shape A) as [|n' rest] eqn:HsA; [done|].
  injection Hn as ->.
  assert (wf dA) as HdA.
  { apply (sub_wf A_test A_hat dA); [|done..].
    exact (take_rows_wf A A_test test HA Htake). }
  destruct (set_rows_spec res dA res' test n rest Hshape Hres HdA Hset)
    as (Hs' & Hwf' & Hall & Hrows).
  split; [exact Hwf'|]. split; [congruence|]. split.
  - intros p i Hp.
    assert (i < n) as Hi.
    { eapply Forall_forall in Hall; [exact Hall|].
      by eapply list_elem_of_lookup_2. }
    rewrite (Hrows i Hi), (last_index_of_NoDup test p i Hnd Hp).
    rewrite (sub_row _ _ _ p Hsub).
    by rewrite (take_rows_row A A_test test p i HA Htake Hp).
  - intros i Hi Hni. by rewrite (Hrows i Hi), last_index_of_None.
Qed.

End Rows.

(* ===================================================================== *)
(** ** Cross-fitting (C1) *)
(* ===================================================================== *)

Section Preserves.

Context {S : Type} (R : S -> S -> Prop) `{!Reflexive R} `{!Transitive R}.

Lemma preserves_bind {A B} (m : M S A) (k : A -> M S B) :
  preserves R m -> (forall a, preserves R (k a)) -> preserves R (bind m k).
Proof.
  intros Hm Hk s s' r. unfold bind.
  destruct (m s) as [s1 [e|a]] eqn:E.
  - intros [= <- <-]. by eapply Hm.
  - intros Hka. transitivity s1; [by eapply Hm|by eapply Hk].
Qed.

Lemma preserves_lift {A} (r : result A) : preserves R (lift r).
Proof. intros s s' r'. unfold lift. by intros [= <- <-]. Qed.

Lemma preserves_ret {A} (a : A) : preserves R (ret a).
Proof. intros s s' r'. unfold ret. by intros [= <- <-]. Qed.

Lemma preserves_throw {A} (e : exn) : preserves R (@throw S A e).
Proof. intros s s' r'. unfold throw. by intros [= <- <-]. Qed.

Lemma preserves_get : preserves R (@get S).
Proof. intros s s' r'. unfold get. by intros [= <- <-]. Qed.

End Preserves.

Section CrossFit.

Context {Model Fz : Type} `{!Estimator Model} `{!Transformer Fz}.
Implicit Types s st : estimator Model Fz.

#[local] Instance same_except_refl idx : Reflexive (@same_except Model Fz idx).
Proof. by intros s f Hf. Qed.

#[local] Instance same_except_trans idx : Transitive (@same_except Model Fz idx).
Proof.
  intros s1 s2 s3 H12 H23 f Hf.
  destruct (H12 f Hf) as [<- <-]. by apply H23.
Qed.

Lemma featurizer_same idx X : preserves (@same_except Model Fz idx) (featurizer_fit_transform X).
Proof.
  intros s s' r. unfold featurizer_fit_transform.
  destruct (fit_transform _ _) as [f' r']. intros [= <- <-]. by intros f Hf.
Qed.

Lemma combine_same idx (w : FirstStageWrapper Model) X W :
  preserves (@same_except Model Fz idx) (FirstStageWrapper_combine w X W).
Proof.
  unfold FirstStageWrapper_combine.
  apply (preserves_bind (same_except idx)); [apply (preserves_get _)|].
  intros s0.
  destruct (_is_Y w && sparseLinear (cells s0));
    repeat first [ apply (preserves_lift (same_except idx))
                 | apply featurizer_same
                 | apply (preserves_bind (same_except idx)); [|intros ?] ].
Qed.

Lemma deref_same idx r : preserves (@same_except Model Fz idx) (deref r).
Proof.
  intros s s' res. unfold deref.
  destruct (match r with Models_y i => _ | Models_t i => _ end);
    by intros [= <- <-].
Qed.

Lemma wrapper_fit_same (self : ref) X W Target :
  preserves (@same_except Model Fz (ref_index self))
            (FirstStageWrapper_fit self X W Target).
Proof.
  unfold FirstStageWrapper_fit.
  apply (preserves_bind (same_except _)); [apply deref_same|]. intros w.
  apply (preserves_bind (same_except _)); [apply combine_same|]. intros D.
  intros s s' r. destruct (est_fit _ _ _) as [m' r']. intros [= <- <-].
  intros f Hf. destruct self as [idx|idx]; cbn in *.
  - by rewrite list_lookup_insert_ne.
  - by rewrite list_lookup_insert_ne.
Qed.

Lemma wrapper_predict_same idx (self : ref) X W :
  preserves (@same_except Model Fz idx) (FirstStageWrapper_predict self X W).
Proof.
  unfold FirstStageWrapper_predict.
  apply (preserves_bind (same_except _)); [apply deref_same|]. intros w.
  apply (preserves_bind (same_except _)); [apply combine_same|]. intros D.
  apply (preserves_lift (same_except _)).
Qed.

Lemma fit_fold_same Y T X W idx train test acc :
  preserves (@same_except Model Fz idx) (fit_fold Y T X W (idx, (train, test)) acc).
Proof.
  unfold fit_fold. destruct acc as [y_res t_res].
  repeat first [ apply (preserves_lift (same_except idx))
               | apply (preserves_ret (same_except idx))
               | apply (wrapper_fit_same (Models_t idx))
               | apply (wrapper_fit_same (Models_y idx))
               | apply wrapper_predict_same
               | apply (preserves_bind (same_except idx)); [|intros ?] ].
Qed.

Lemma wrapper_predict_wf (self : ref) X W s s' (P : ndarray) :
  (forall (m : Model) D P, est_predict m D = ok P -> wf P) ->
  FirstStageWrapper_predict self X W s = (s', ok P) -> wf P.
Proof.
  intros Hwf Hrun. unfold FirstStageWrapper_predict in Hrun. inv_run.
  by eapply Hwf.
Qed.

Lemma fit_fold_spec Y T X W idx train test y_res t_res s s1 y_res' t_res' n :
  wf Y -> wf T -> wf y_res -> wf t_res ->
  shape y_res = shape Y -> shape t_res = shape T ->
  shape0 Y = ok n -> shape0 T = ok n ->
  (forall (m : Model) D P, est_predict m D = ok P -> wf P) ->
  NoDup test ->
  fit_fold Y T X W (idx, (train, test)) (y_res, t_res) s
  = (s1, ok (y_res', t_res')) ->
  (exists Y_hat T_hat,
      fold_calls Y T X W idx train test s s1 Y_hat T_hat /\
      forall p i, test !! p = Some i ->
                  row y_res' i = zip_with Z.sub (row Y i) (row Y_hat p) /\
                  row t_res' i = zip_with Z.sub (row T i) (row T_hat p)) /\
  wf y_res' /\ wf t_res' /\
  shape y_res' = shape Y /\ shape t_res' = shape T /\
  Forall (fun i => i < n) test /\
  (forall i, i < n -> i ∉ test ->
             row y_res' i = row y_res i /\ row t_res' i = row t_res i).
Proof.
  intros HY HT Hy Ht Hsy Hst HnY HnT Hwf Hnd Hrun.
  unfold fit_fold in Hrun. inv_run. subst.
  assert (Forall (fun i => i < n) test) as Hlt.
  { match goal with
    | Ht1 : take_rows Y test = inr _ |- _ =>
        apply take_rows_inv in Ht1 as (n' & rest & HsY & Hall & _)
    end.
    unfold shape0 in HnY. rewrite HsY in HnY. by injection HnY as <-. }
  repeat match goal with u : unit |- _ => destruct u end.
  match goal with
  | Hp : FirstStageWrapper_predict (Models_t idx) _ _ _ = (_, inr ?P) |- _ =>
      assert (wf P) as HwT by (eapply wrapper_predict_wf; [exact Hwf|exact Hp])
  end.
  match goal with
  | Hp : FirstStageWrapper_predict (Models_y idx) _ _ _ = (_, inr ?P) |- _ =>
      assert (wf P) as HwY by (eapply wrapper_predict_wf; [exact Hwf|exact Hp])
  end.
  match goal with
  | Ht1 : take_rows T test = inr ?Tt, Hs1 : sub ?Tt ?Th = inr ?dT,
    Hr1 : set_rows t_res test ?dT = inr ?tr |- _ =>
      destruct (residual_rows T Tt Th dT t_res tr test n HT Ht Hst HnT Ht1 HwT
                              Hs1 Hr1 Hnd) as (Hwt & Hsht & Hrt & Hot)
  end.
  match goal with
  | Ht1 : take_rows Y test = inr ?Yt, Hs1 : sub ?Yt ?Yh = inr ?dY,
    Hr1 : set_rows y_res test ?dY = inr ?yr |- _ =>
      destruct (residual_rows Y Yt Yh dY y_res yr test n HY Hy Hsy HnY Ht1 HwY
                              Hs1 Hr1 Hnd) as (Hwy & Hshy & Hry & Hoy)
  end.
  split; [|repeat split; auto].
  eexists _, _. split.
  - unfold fold_calls. eexists _, _, _, _, _, _, _, _, _.
    repeat split; eassumption.
  - intros p i Hp. split; [by apply Hry|by apply Hrt].
Qed.

Lemma fit_args_inv Y T X W X' W' :
  fit_args Y T X W = ok (X', W') ->
  exists n, shape0 Y = ok n /\ shape0 T = ok n /\ shape0 X' = ok n.
Proof.
  unfold fit_args. intros Hargs.
  repeat (inv_run;
          try match goal with
              | H : (if decide ?P then _ else _) = inr _ |- _ =>
                  destruct (decide P); [|discriminate H]
              end).
  injection Hargs as <- <-. subst. eauto.
Qed.

(** The loop of [fit] over the folds [l], numbered from [b] on. *)
Lemma cross_fit_loop Y T X W n :
  wf Y -> wf T -> shape0 Y = ok n -> shape0 T = ok n ->
  (forall (m : Model) D P, est_predict m D = ok P -> wf P) ->
  forall (l : list (list nat * list nat)) (b : nat) y_res t_res s s' y_res' t_res',
    wf y_res -> wf t_res -> shape y_res = shape Y -> shape t_res = shape T ->
    NoDup (concat (snd <$> l)) ->
    for_each (zip (seq b (length l)) l) (fit_fold Y T X W) (y_res, t_res) s
    = (s', ok (y_res', t_res')) ->
    wf y_res' /\ wf t_res' /\ shape y_res' = shape Y /\ shape t_res' = shape T /\
    (forall i, i < n -> i ∉ concat (snd <$> l) ->
               row y_res' i = row y_res i /\ row t_res' i = row t_res i) /\
    (forall f, b + length l <= f ->
               _models_y s' !! f = _models_y s !! f /\
               _models_t s' !! f = _models_t s !! f) /\
    (forall q train test p i,
        l !! q = Some (train, test) -> test !! p = Some i ->
        exists s0 s4 Y_hat T_hat,
          _models_y s0 !! (b + q) = _models_y s !! (b + q) /\
          _models_t s0 !! (b + q) = _models_t s !! (b + q) /\
          fold_calls Y T X W (b + q) train test s0 s4 Y_hat T_hat /\
          row y_res' i = zip_with Z.sub (row Y i) (row Y_hat p) /\
          row t_res' i = zip_with Z.sub (row T i) (row T_hat p)).
Proof.
  intros HY HT HnY HnT Hwf l.
  induction l as [|[train test] l IH];
    intros b y_res t_res s s' y_res' t_res' Hy Ht Hsy Hst Hnd Hrun.
  - cbn in Hrun. injection Hrun as <- <- <-.
    repeat split; auto. intros q train test p i Hq. done.
  - cbn [length seq zip zip_with for_each] in Hrun.
    apply bind_ok in Hrun as ([y1 t1] & s1 & Hfold & Hrest).
    rewrite fmap_cons in Hnd. cbn [snd concat] in Hnd.
    apply NoDup_app in Hnd as (Hndt & Hdisj & Hndl).
    pose proof (fit_fold_same Y T X W b train test (y_res, t_res) _ _ _ Hfold)
      as Hsame.
    destruct (fit_fold_spec Y T X W b train test y_res t_res s s1 y1 t1 n
                            HY HT Hy Ht Hsy Hst HnY HnT Hwf Hndt Hfold)
      as ((Y_hat & T_hat & Hcalls & Hres) & Hy1 & Ht1 & Hsy1 & Hst1 & Hlt & Hout).
    destruct (IH (S b) y1 t1 s1 s' y_res' t_res' Hy1 Ht1 Hsy1 Hst1 Hndl Hrest)
      as (Hy' & Ht' & Hsy' & Hst' & Hout' & Hmod' & Hfolds').
    split; [done|]. split; [done|]. split; [done|]. split; [done|].
    split; [|split].
    + intros i Hi Hni. rewrite fmap_cons in Hni. cbn [snd concat] in Hni.
      apply not_elem_of_app in Hni as [Hn1 Hn2].
      destruct (Hout' i Hi Hn2) as [-> ->]. by apply Hout.
    + intros f Hf. cbn [length] in Hf.
      destruct (Hmod' f ltac:(lia)) as [-> ->]. apply Hsame. lia.
    + intros q tr te p i Hq Hp. destruct q as [|q]; cbn in Hq.
      * injection Hq as <- <-.
        assert (i ∈ test) as Hin by (by eapply list_elem_of_lookup_2).
        assert (i < n) as Hi.
        { eapply Forall_forall in Hlt; [exact Hlt|done]. }
        destruct (Hout' i Hi (Hdisj i Hin)) as [-> ->].
        destruct (Hres p i Hp) as [Hry Hrt].
        exists s, s1, Y_hat, T_hat. rewrite Nat.add_0_r. auto.
      * destruct (Hfolds' q tr te p i Hq Hp)
          as (s0 & s4 & Yh & Th & Hmy & Hmt & Hc & Hry & Hrt).
        exists s0, s4, Yh, Th. rewrite Nat.add_succ_r.
        destruct (Hsame (S b + q) ltac:(lia)) as [Hsy0 Hst0].
        cbn [Nat.add] in *. split; [congruence|]. split; [congruence|]. auto.
Qed.

Lemma zeros_wf (sh : list nat) : wf (zeros sh).
Proof. unfold wf, zeros, full. cbn. apply length_replicate. Qed.

(** C1.  After a successful [fit] on [n] rows, the loop over the folds has
    left, for every row [i], one residual pair at position [i] of the two
    residual arrays that the final model is then fit on.  Row [i] lies in
    the test set of exactly one fold [f]; the pair is [T_i] minus the
    prediction for [i] of the treatment wrapper of fold [f] and [Y_i] minus
    the prediction for [i] of the outcome wrapper of fold [f]; and each of
    these two wrappers, untouched until its fold came up, was fit on the
    training rows of fold [f] only, none of which lies in the test set of
    fold [f], where [i] is. *)
Theorem residuals_out_of_fold (st st' : estimator Model Fz) Y T X W n :
  wf Y -> wf T -> shape0 Y = ok n ->
  (forall (m : Model) D P, est_predict m D = ok P -> wf P) ->
  fit Y T X W st = (st', ok tt) ->
  exists X' W' kf folds st_cf y_res t_res,
    fit_args Y T X W = ok (X', W') /\
    KFold_init (_n_splits st) = ok kf /\
    KFold_split kf X' = ok folds /\
    cross_fit Y T X' W' st = (st_cf, ok (y_res, t_res)) /\
    FinalWrapper_fit X' t_res y_res st_cf = (st', ok tt) /\
    shape y_res = shape Y /\ shape t_res = shape T /\
    forall i, i < n ->
      exists f train test p s0 s4 Y_hat T_hat,
        folds !! f = Some (train, test) /\
        test !! p = Some i /\
        (forall j, j ∈ train -> j ∉ test) /\
        (forall f' fold', folds !! f' = Some fold' -> i ∈ snd fold' -> f' = f) /\
        _models_y s0 !! f = _models_y st !! f /\
        _models_t s0 !! f = _models_t st !! f /\
        fold_calls Y T X' W' f train test s0 s4 Y_hat T_hat /\
        row y_res i = zip_with Z.sub (row Y i) (row Y_hat p) /\
        row t_res i = zip_with Z.sub (row T i) (row T_hat p).
Proof.
  intros HY HT HnY Hwf Hfit. unfold fit in Hfit.
  apply bind_ok in Hfit as ([X' W'] & s1 & Hargs & Hrest).
  apply lift_ok in Hargs as [-> Hargs].
  apply bind_ok in Hrest as ([y_res t_res] & st_cf & Hcf & Hfinal).
  destruct (fit_args_inv _ _ _ _ _ _ Hargs) as (n0 & HnY0 & HnT & HnX).
  assert (n0 = n) as ->.
  { rewrite HnY in HnY0. by injection HnY0. }
  pose proof Hcf as Hloop. unfold cross_fit in Hloop. inv_run.
  match goal with
  | Hi : KFold_init _ = inr ?kf, Hs : KFold_split ?kf X' = inr ?folds |- _ =>
      rename Hi into Hinit; rename Hs into Hsplit;
      rename kf into kf0; rename folds into folds0
  end.
  pose proof (KFold_split_inv _ _ _ _ _ HnX Hinit Hsplit) as Hk.
  destruct (kfold_partition_facts _ X' n HnX Hk)
    as (kf & folds & Hinit' & Hsplit' & Hlen & Hcat & Hfolds & Hcover & Hdisj).
  assert (kf = kf0) as -> by (unfold ok in *; congruence).
  assert (folds = folds0) as -> by (unfold ok in *; congruence).
  destruct (cross_fit_loop Y T X' W' n HY HT HnY HnT Hwf folds0 0
                           (zeros (shape Y)) (zeros (shape T)) st st_cf y_res t_res
                           (zeros_wf _) (zeros_wf _) eq_refl eq_refl)
    as (_ & _ & Hsy & Hst & _ & _ & Hrows).
  { rewrite Hcat. apply NoDup_seq. }
  { match goal with H : for_each _ _ _ _ = _ |- _ => exact H end. }
  exists X', W', kf0, folds0, st_cf, y_res, t_res.
  repeat (split; [done|]).
  intros i Hi.
  destruct (proj1 (Hcover i) Hi) as (f & [train test] & Hf & Hin).
  cbn [snd] in Hin.
  apply list_elem_of_lookup in Hin as [p Hp].
  destruct (Hrows f train test p i Hf Hp)
    as (s0 & s4 & Y_hat & T_hat & Hmy & Hmt & Hcalls & Hry & Hrt).
  exists f, train, test, p, s0, s4, Y_hat, T_hat.
  split; [done|]. split; [done|]. split; [|split].
  - eapply Forall_lookup_1 in Hfolds; [|exact Hf].
    cbn [fst snd] in Hfolds. destruct Hfolds as (_ & _ & Htrain).
    intros j Hj%Htrain. by destruct Hj.
  - intros f' fold' Hf' Hin'.
    eapply Hdisj; [exact Hf'|exact Hf|exact Hin'|].
    cbn [snd]. by eapply list_elem_of_lookup_2.
  - auto.
Qed.

End CrossFit.

(* ===================================================================== *)
(** ** What [fit] keeps, and what a failure leaves behind *)
(* ===================================================================== *)

Section FitFrames.

Context {Model Fz : Type} `{!Estimator Model} `{!Transformer Fz}.
Implicit Types s st : estimator Model Fz.

#[local] Instance only_featurizer_refl : Reflexive (@only_featurizer Model Fz).
Proof. intros s. unfold only_featurizer. auto 10. Qed.

#[local] Instance only_featurizer_trans : Transitive (@only_featurizer Model Fz).
Proof.
  intros s1 s2 s3 (A1 & A2 & A3 & A4 & A5 & A6 & A7) (B1 & B2 & B3 & B4 & B5 & B6 & B7).
  unfold only_featurizer. repeat split; congruence.
Qed.

#[local] Instance same_config_refl : Reflexive (@same_config Model Fz).
Proof. intros s. unfold same_config. auto. Qed.

#[local] Instance same_config_trans : Transitive (@same_config Model Fz).
Proof.
  intros s1 s2 s3 (A1 & A2 & A3 & A4) (B1 & B2 & B3 & B4).
  unfold same_config. repeat split; congruence.
Qed.

#[local] Instance final_untouched_refl : Reflexive (@final_untouched Model Fz).
Proof. intros s. repeat split. exists []. split; [reflexivity|constructor]. Qed.

#[local] Instance final_untouched_trans : Transitive (@final_untouched Model Fz).
Proof.
  intros s1 s2 s3 (A1 & A2 & n1 & A3 & A4) (B1 & B2 & n2 & B3 & B4).
  split; [congruence|]. split; [congruence|].
  exists (n2 ++ n1). split; [by rewrite B3, A3, app_assoc|by apply Forall_app].
Qed.

Lemma only_featurizer_config s s' : only_featurizer s s' -> same_config s s'.
Proof.
  intros (A1 & A2 & A3 & A4 & A5 & A6 & A7).
  unfold same_config. rewrite A1, A2. auto.
Qed.

Lemma only_featurizer_final s s' : only_featurizer s s' -> final_untouched s s'.
Proof.
  intros (A1 & A2 & A3 & A4 & A5 & A6 & A7).
  split; [done|]. split; [done|]. exists []. split; [done|constructor].
Qed.

Lemma preserves_weaken {A} (R R' : estimator Model Fz -> estimator Model Fz -> Prop)
      (m : M (estimator Model Fz) A) :
  (forall s s', R s s' -> R' s s') -> preserves R m -> preserves R' m.
Proof. intros Himp Hm s s' r Hrun. apply Himp. by eapply Hm. Qed.

Lemma featurizer_only X :
  preserves (@only_featurizer Model Fz) (featurizer_fit_transform X).
Proof.
  intros s s' r. unfold featurizer_fit_transform.
  destruct (fit_transform _ _) as [f' r']. intros [= <- <-].
  unfold only_featurizer. cbn. auto 10.
Qed.

Lemma combine_only (w : FirstStageWrapper Model) X W :
  preserves (@only_featurizer Model Fz) (FirstStageWrapper_combine w X W).
Proof.
  unfold FirstStageWrapper_combine.
  apply (preserves_bind only_featurizer); [apply (preserves_get _)|].
  intros s0.
  destruct (_is_Y w && sparseLinear (cells s0));
    repeat first [ apply (preserves_lift only_featurizer)
                 | apply featurizer_only
                 | apply (preserves_bind only_featurizer); [|intros ?] ].
Qed.

Lemma deref_inv (r : ref) s s' res :
  deref r s = (s', res) ->
  s' = s /\
  res = match lookup_ref r s with
        | Some w => ok w
        | None => raise IndexError
        end.
Proof.
  unfold deref, lookup_ref.
  destruct r as [idx|idx];
    [destruct (_models_y s !! idx)|destruct (_models_t s !! idx)];
    intros [= <- <-]; auto.
Qed.

(** What a wrapper's [fit] does: it fails before reaching the wrapped
    model, having changed the featurizer at most; or it calls the wrapped
    model's [fit] on the combined design, stores the model back and leaves
    a trace of the call. *)
Lemma wrapper_fit_effect (self : ref) X W Target s s' (r : result unit) :
  FirstStageWrapper_fit self X W Target s = (s', r) ->
  (only_featurizer s s' /\ exists e, r = inl e) \/
  (exists w D m' s1,
      lookup_ref self s = Some w /\
      FirstStageWrapper_combine w X W s = (s1, ok D) /\
      est_fit (_model w) D Target = (m', r) /\
      s' = record_call (store self (mk_FirstStageWrapper m' (_is_Y w)) s1)
                       (NuisanceFit (_is_Y w) D Target)).
Proof.
  unfold FirstStageWrapper_fit, bind.
  destruct (deref self s) as [s0 rw] eqn:Hd.
  apply deref_inv in Hd as [-> ->].
  destruct (lookup_ref self s) as [w|] eqn:Hw; unfold ok, raise; cbv beta iota.
  2:{ intros [= <- <-]. left. split; [reflexivity|eauto]. }
  destruct (FirstStageWrapper_combine w X W s) as [s1 [e|D]] eqn:Hc.
  { intros [= <- <-]. left. split; [by eapply combine_only|eauto]. }
  destruct (est_fit (_model w) D Target) as [m' r'] eqn:Hf.
  intros [= <- <-]. right. exists w, D, m', s1. auto.
Qed.

Lemma wrapper_predict_only (self : ref) X W :
  preserves (@only_featurizer Model Fz) (FirstStageWrapper_predict self X W).
Proof.
  unfold FirstStageWrapper_predict.
  apply (preserves_bind only_featurizer).
  { intros s s' r Hd. apply deref_inv in Hd as [-> _]. reflexivity. }
  intros w.
  apply (preserves_bind only_featurizer); [apply combine_only|]. intros D.
  apply (preserves_lift only_featurizer).
Qed.

Lemma store_flags (self : ref) (w : FirstStageWrapper Model) (m' : Model) s s1 :
  lookup_ref self s = Some w -> only_featurizer s s1 ->
  same_config s (store self (mk_FirstStageWrapper m' (_is_Y w)) s1).
Proof.
  intros Hw (A1 & A2 & A3 & A4 & A5 & A6 & A7).
  unfold same_config, store.
  destruct self as [idx|idx]; cbn in *; rewrite ?A1, ?A2;
    (split; [done|]); (split; [done|]).
  - split; [|done]. rewrite list_fmap_insert. apply list_insert_id.
    by rewrite list_lookup_fmap, Hw.
  - split; [done|]. rewrite list_fmap_insert. apply list_insert_id.
    by rewrite list_lookup_fmap, Hw.
Qed.

Lemma wrapper_fit_config (self : ref) X W Target :
  preserves (@same_config Model Fz) (FirstStageWrapper_fit self X W Target).
Proof.
  intros s s' r Hrun.
  apply wrapper_fit_effect in Hrun
    as [[Ho _]|(w & D & m' & s1 & Hw & Hc & Hf & ->)].
  - by apply only_featurizer_config.
  - apply combine_only in Hc.
    pose proof (store_flags self w m' s s1 Hw Hc) as (B1 & B2 & B3 & B4).
    unfold same_config. cbn. auto.
Qed.

Lemma wrapper_fit_final (self : ref) X W Target :
  preserves (@final_untouched Model Fz) (FirstStageWrapper_fit self X W Target).
Proof.
  intros s s' r Hrun.
  apply wrapper_fit_effect in Hrun
    as [[Ho _]|(w & D & m' & s1 & Hw & Hc & Hf & ->)].
  - by apply only_featurizer_final.
  - apply combine_only in Hc as (A1 & A2 & A3 & A4 & A5 & A6 & A7).
    split; [destruct self; cbn; done|].
    split; [destruct self; cbn; done|].
    exists [NuisanceFit (_is_Y w) D Target].
    split; [destruct self; cbn; by rewrite A7|].
    repeat constructor.
Qed.

Lemma preserves_for_each {A B} (R : estimator Model Fz -> estimator Model Fz -> Prop)
      `{!Reflexive R} `{!Transitive R}
      (body : A -> B -> M (estimator Model Fz) B) (l : list A) (acc : B) :
  (forall x a, preserves R (body x a)) -> preserves R (for_each l body acc).
Proof.
  intros Hbody. revert acc. induction l as [|x l IH]; intros acc.
  - apply (preserves_ret R).
  - cbn [for_each]. apply (preserves_bind R); [apply Hbody|apply IH].
Qed.

(** A relation kept by every wrapper call is kept by the whole loop. *)
Lemma cross_fit_preserves (R : estimator Model Fz -> estimator Model Fz -> Prop)
      `{!Reflexive R} `{!Transitive R} Y T X W :
  (forall s s', only_featurizer s s' -> R s s') ->
  (forall self A B C, preserves R (FirstStageWrapper_fit self A B C)) ->
  preserves R (cross_fit Y T X W).
Proof.
  intros Himp Hfit. unfold cross_fit.
  apply (preserves_bind R); [apply (preserves_get R)|]. intros s0.
  apply (preserves_bind R); [apply (preserves_lift R)|]. intros kf.
  apply (preserves_bind R); [apply (preserves_lift R)|]. intros folds.
  apply (preserves_for_each R). intros [idx [train test]] [y_res t_res].
  unfold fit_fold.
  repeat first [ apply (preserves_lift R)
               | apply (preserves_ret R)
               | apply Hfit
               | apply (preserves_weaken only_featurizer R _ Himp),
                       wrapper_predict_only
               | apply (preserves_bind R); [|intros ?] ].
Qed.

(** What the final wrapper's [fit] does: the two shapes are recorded
    first; then the featurizer, the cross product or the final model may
    raise, and only in the last case has the final model been called. *)
Lemma final_fit_effect X T_res Y_res s s' (r : result unit) :
  FinalWrapper_fit X T_res Y_res s = (s', r) ->
  _model_final s' = mk_FinalWrapper (Some (shape_tail T_res))
                                    (Some (shape_tail Y_res)) /\
  _models_y s' = _models_y s /\ _models_t s' = _models_t s /\
  _n_splits s' = _n_splits s /\
  sparseLinear (cells s') = sparseLinear (cells s) /\
  ((exists e, r = inl e /\ fit_calls s' = fit_calls s /\
              model_final (cells s') = model_final (cells s)) \/
   (exists f' F D m',
       fit_transform (featurizer (cells s)) X = (f', ok F) /\
       cross_product F T_res = ok D /\
       est_fit (model_final (cells s)) D Y_res = (m', r) /\
       model_final (cells s') = m' /\
       fit_calls s' = FinalFit D Y_res :: fit_calls s)).
Proof.
  unfold FinalWrapper_fit, bind, modify, featurizer_fit_transform, lift. cbn.
  destruct (fit_transform (featurizer (cells s)) X) as [f' [e|F]] eqn:Hft; cbn.
  { intros [= <- <-]. cbn. repeat split; auto. left. eauto. }
  destruct (cross_product F T_res) as [e|D] eqn:Hcp; cbn.
  { intros [= <- <-]. cbn. repeat split; auto. left. eauto. }
  destruct (est_fit (model_final (cells s)) D Y_res) as [m' r'] eqn:Hf.
  intros [= <- <-]. cbn. repeat split; auto. right.
  exists f', F, D, m'. auto.
Qed.

Lemma final_fit_config X T_res Y_res :
  preserves (@same_config Model Fz) (FinalWrapper_fit X T_res Y_res).
Proof.
  intros s s' r (_ & A1 & A2 & A3 & A4 & _)%final_fit_effect.
  unfold same_config. rewrite A1, A2. auto.
Qed.

(** X1.  Whatever [fit] is given and whether it returns or raises, it
    leaves the estimator's configuration as it was: the number of splits,
    the sparse flag, the number of outcome and of treatment wrappers, and
    the side each wrapper serves. *)
Theorem fit_keeps_configuration st Y T (X W : option ndarray) :
  let st' := fst (fit Y T X W st) in
  _n_splits st' = _n_splits st /\
  sparseLinear (cells st') = sparseLinear (cells st) /\
  length (_models_y st') = length (_models_y st) /\
  length (_models_t st') = length (_models_t st) /\
  _is_Y <$> _models_y st' = _is_Y <$> _models_y st /\
  _is_Y <$> _models_t st' = _is_Y <$> _models_t st.
Proof.
  assert (preserves (@same_config Model Fz) (fit Y T X W)) as Hfit.
  { unfold fit.
    apply (preserves_bind same_config); [apply (preserves_lift same_config)|].
    intros [X' W'].
    apply (preserves_bind same_config).
    - apply (cross_fit_preserves same_config);
        [apply only_featurizer_config|intros; apply wrapper_fit_config].
    - intros [y_res t_res]. apply final_fit_config. }
  destruct (fit Y T X W st) as [st' r] eqn:Hrun. cbn.
  destruct (Hfit st st' r Hrun) as (A1 & A2 & A3 & A4).
  repeat split; try done.
  - by rewrite <- (length_fmap _is_Y), A3, length_fmap.
  - by rewrite <- (length_fmap _is_Y), A4, length_fmap.
Qed.

(** X2.  When the loop over the folds raises (a nuisance model, the
    featurizer or an array helper raised in some fold, or the splitter
    refused), [fit] raises the same error without having touched the final
    wrapper or the final model: no fit call was made on the final model,
    an unfitted estimator is still unfitted, and a later query fails on the
    attribute that only the final wrapper's [fit] sets.  The nuisance
    wrappers of the folds already run stay as their fits left them. *)
Theorem nuisance_failure_aborts_fit st s1 Y T (X W : option ndarray) X' W' (e : exn) :
  fit_args Y T X W = ok (X', W') ->
  cross_fit Y T X' W' st = (s1, raise e) ->
  fit Y T X W st = (s1, raise e) /\
  _model_final s1 = _model_final st /\
  model_final (cells s1) = model_final (cells st) /\
  (exists new, fit_calls s1 = new ++ fit_calls st /\ Forall is_nuisance_call new) /\
  (unfitted st ->
   forall Xq, snd (const_marginal_effect Xq s1) = raise (AttributeError "_d_t")).
Proof.
  intros Hargs Hcf.
  assert (final_untouched st s1) as (A1 & A2 & A3).
  { eapply (cross_fit_preserves final_untouched);
      [apply only_featurizer_final|intros; apply wrapper_fit_final|exact Hcf]. }
  split; [|repeat split; auto].
  - unfold fit. erewrite bind_eq_ok by (unfold lift; rewrite Hargs; reflexivity).
    cbv beta iota. erewrite bind_eq_err; [reflexivity|exact Hcf].
  - intros Hun Xq. unfold const_marginal_effect.
    rewrite predict_unfitted; [reflexivity|].
    unfold unfitted in *. by rewrite A1.
Qed.

Lemma fit_same_config Y T (X W : option ndarray) :
  preserves (@same_config Model Fz) (fit Y T X W).
Proof.
  unfold fit.
  apply (preserves_bind same_config); [apply (preserves_lift same_config)|].
  intros [X' W'].
  apply (preserves_bind same_config).
  - apply (cross_fit_preserves same_config);
      [apply only_featurizer_config|intros; apply wrapper_fit_config].
  - intros [y_res t_res]. apply final_fit_config.
Qed.

End FitFrames.

Section FitTrace.

Context {Model Fz : Type} `{!Estimator Model} `{!Transformer Fz}.
Implicit Types s st : estimator Model Fz.

Lemma set_rows_shape (a rhs a' : ndarray) (idxs : list nat) :
  set_rows a idxs rhs = ok a' -> shape a' = shape a.
Proof.
  unfold set_rows. destruct (shape a) as [|n rest] eqn:Hs; [done|].
  destruct (decide _); [|done]. destruct (decide _); [|done].
  by intros [= <-].
Qed.

Lemma wrapper_fit_ok_trace (self : ref) X W Target s s' :
  FirstStageWrapper_fit self X W Target s = (s', ok tt) ->
  exists c, is_nuisance_call c /\ fit_calls s' = c :: fit_calls s.
Proof.
  intros Hrun.
  apply wrapper_fit_effect in Hrun
    as [[_ [e He]]|(w & D & m' & s1 & Hw & Hc & Hf & ->)]; [done|].
  apply combine_only in Hc as (_ & _ & _ & _ & _ & _ & A7).
  exists (NuisanceFit (_is_Y w) D Target). split; [exact I|].
  destruct self; cbn; by rewrite A7.
Qed.

Lemma wrapper_predict_trace (self : ref) X W s s' r :
  FirstStageWrapper_predict self X W s = (s', r) -> fit_calls s' = fit_calls s.
Proof. intros Hrun. by apply wrapper_predict_only in Hrun as (_ & _ & _ & _ & _ & _ & A7). Qed.

(** One fold of a successful loop: two nuisance fit calls, the treatment
    wrapper's first, and residual arrays of the same shapes. *)
Lemma fit_fold_trace Y T X W idx train test y_res t_res s s1 y_res' t_res' :
  fit_fold Y T X W (idx, (train, test)) (y_res, t_res) s
  = (s1, ok (y_res', t_res')) ->
  shape y_res' = shape y_res /\ shape t_res' = shape t_res /\
  exists cy ct, is_nuisance_call cy /\ is_nuisance_call ct /\
                fit_calls s1 = cy :: ct :: fit_calls s.
Proof.
  intros Hrun. unfold fit_fold in Hrun. inv_run. subst.
  repeat match goal with u : unit |- _ => destruct u end.
  repeat match goal with
         | Hs : set_rows _ _ _ = inr _ |- _ => apply set_rows_shape in Hs
         | Hp : FirstStageWrapper_predict _ _ _ _ = _ |- _ =>
             apply wrapper_predict_trace in Hp
         | Hf : FirstStageWrapper_fit _ _ _ _ _ = _ |- _ =>
             apply wrapper_fit_ok_trace in Hf as (? & ? & Hf)
         end.
  split; [done|]. split; [done|].
  repeat match goal with
         | Hc : fit_calls _ = _ |- _ => rewrite Hc; clear Hc
         end.
  eauto.
Qed.

Lemma cross_fit_loop_trace Y T X W (l : list (list nat * list nat)) :
  forall (b : nat) y_res t_res s s' y_res' t_res',
    for_each (zip (seq b (length l)) l) (fit_fold Y T X W) (y_res, t_res) s
    = (s', ok (y_res', t_res')) ->
    shape y_res' = shape y_res /\ shape t_res' = shape t_res /\
    exists new, fit_calls s' = new ++ fit_calls s /\
                length new = 2 * length l /\ Forall is_nuisance_call new.
Proof.
  induction l as [|[train test] l IH];
    intros b y_res t_res s s' y_res' t_res' Hrun.
  - cbn in Hrun. injection Hrun as <- <- <-.
    split; [done|]. split; [done|]. exists []. repeat split. constructor.
  - cbn [length seq zip zip_with for_each] in Hrun.
    apply bind_ok in Hrun as ([y1 t1] & s1 & Hfold & Hrest).
    apply fit_fold_trace in Hfold as (Hy1 & Ht1 & cy & ct & Hcy & Hct & Hcalls).
    apply IH in Hrest as (Hy' & Ht' & new & Hnew & Hlen & Hall).
    split; [congruence|]. split; [congruence|].
    exists (new ++ [cy; ct]). split; [|split].
    + rewrite Hnew, Hcalls, <- app_assoc. reflexivity.
    + rewrite length_app. cbn [length]. lia.
    + apply Forall_app. split; [done|]. by repeat constructor.
Qed.

(** What a successful [fit] consists of. *)
Lemma fit_ok_inv st st' Y T (X W : option ndarray) :
  fit Y T X W st = (st', ok tt) ->
  exists X' W' n folds st_cf y_res t_res,
    fit_args Y T X W = ok (X', W') /\
    shape0 X' = ok n /\
    (2 <= _n_splits st <= Z.of_nat n)%Z /\
    length folds = Z.to_nat (_n_splits st) /\
    for_each (enumerate folds) (fit_fold Y T X' W')
             (zeros (shape Y), zeros (shape T)) st
    = (st_cf, ok (y_res, t_res)) /\
    FinalWrapper_fit X' t_res y_res st_cf = (st', ok tt).
Proof.
  intros Hfit. unfold fit in Hfit.
  apply bind_ok in Hfit as ([X' W'] & s1 & Hargs & Hrest).
  apply lift_ok in Hargs as [-> Hargs].
  apply bind_ok in Hrest as ([y_res t_res] & st_cf & Hcf & Hfinal).
  destruct (fit_args_inv _ _ _ _ _ _ Hargs) as (n & _ & _ & HnX).
  unfold cross_fit in Hcf. inv_run.
  match goal with
  | Hi : KFold_init _ = inr ?kf, Hs : KFold_split ?kf X' = inr ?folds |- _ =>
      pose proof (KFold_split_inv _ _ _ _ _ HnX Hi Hs) as Hk;
      destruct (kfold_partition_facts _ X' n HnX Hk)
        as (kf' & folds' & Hi' & Hs' & Hlen & _);
      assert (kf' = kf) as -> by (unfold ok in *; congruence);
      assert (folds' = folds) as -> by (unfold ok in *; congruence)
  end.
  eexists X', W', n, _, st_cf, y_res, t_res.
  repeat (split; [eassumption || done|]). exact Hfinal.
Qed.

(** X3.  A successful [fit] with [k] splits calls [fit] on wrapped models
    exactly [2k + 1] times: [2k] calls on nuisance models, two per fold,
    and then one call on the final model, whose design is the cross
    product of the featurized [X] with the treatment residuals and whose
    target is the outcome residuals. *)
Theorem fit_calls_each_model_once st st' Y T (X W : option ndarray) :
  fit Y T X W st = (st', ok tt) ->
  exists (new : list call) (D y_res : ndarray),
    fit_calls st' = FinalFit D y_res :: new ++ fit_calls st /\
    length new = 2 * Z.to_nat (_n_splits st) /\
    Forall is_nuisance_call new /\
    shape y_res = shape Y.
Proof.
  intros (X' & W' & n & folds & st_cf & y_res & t_res & Hargs & HnX & Hk & Hlen
          & Hloop & Hfinal)%fit_ok_inv.
  apply cross_fit_loop_trace in Hloop as (Hsy & Hst & new & Hnew & Hlnew & Hall).
  apply final_fit_effect in Hfinal
    as (_ & _ & _ & _ & _ & [(e & He & _)|(f' & F & D & m' & _ & _ & _ & _ & Hcalls)]);
    [done|].
  exists new, D, y_res. rewrite Hcalls, Hnew.
  split; [done|]. split; [lia|]. split; [done|]. exact Hsy.
Qed.

(** X4.  After a successful [fit] the final wrapper holds the trailing
    shapes of the treatment and of the outcome it was given (empty for a
    vector), so the estimator is no longer unfitted. *)
Theorem fit_records_trailing_shapes st st' Y T (X W : option ndarray) :
  fit Y T X W st = (st', ok tt) ->
  _d_t (_model_final st') = Some (shape_tail T) /\
  _d_y (_model_final st') = Some (shape_tail Y) /\
  ~ unfitted st'.
Proof.
  intros (X' & W' & n & folds & st_cf & y_res & t_res & Hargs & HnX & Hk & Hlen
          & Hloop & Hfinal)%fit_ok_inv.
  apply cross_fit_loop_trace in Hloop as (Hsy & Hst & _).
  apply final_fit_effect in Hfinal as (Hfw & _).
  cbn [shape zeros full] in Hsy, Hst.
  unfold unfitted, shape_tail in *. rewrite Hfw. cbn. rewrite Hsy, Hst.
  split; [done|]. split; [done|]. discriminate.
Qed.

(** X5.  The final wrapper records the two trailing shapes before it
    calls the featurizer or the final model: whether its [fit] returns or
    raises, the shapes are set afterwards and the nuisance wrappers are as
    before.  When it raises before the final model's [fit] was reached,
    the final model is unchanged, so the estimator then looks fitted while
    its final model is not. *)
Theorem final_fit_records_shapes_first st X T_res Y_res :
  let st' := fst (FinalWrapper_fit X T_res Y_res st) in
  _d_t (_model_final st') = Some (shape_tail T_res) /\
  _d_y (_model_final st') = Some (shape_tail Y_res) /\
  _models_y st' = _models_y st /\ _models_t st' = _models_t st /\
  (fit_calls st' = fit_calls st ->
   model_final (cells st') = model_final (cells st)).
Proof.
  destruct (FinalWrapper_fit X T_res Y_res st) as [st' r] eqn:Hrun. cbn.
  apply final_fit_effect in Hrun as (Hfw & A1 & A2 & _ & _ & Hcase).
  rewrite Hfw. repeat split; auto.
  intros Hcalls.
  destruct Hcase as [(e & _ & _ & Hm)|(f' & F & D & m' & _ & _ & _ & _ & Hc)];
    [done|].
  rewrite Hc in Hcalls. exfalso.
  apply (f_equal length) in Hcalls. cbn in Hcalls. lia.
Qed.

End FitTrace.

(* ===================================================================== *)
(** ** The designs handed to the wrapped models *)
(* ===================================================================== *)

Section Designs.

Context {Model Fz : Type} `{!Estimator Model} `{!Transformer Fz}.
Implicit Types s st : estimator Model Fz.

Lemma ones_wf (sh : list nat) : wf (ones sh).
Proof. unfold wf, ones, full. cbn. apply length_replicate. Qed.

Lemma atleast_1d_matrices (arrs : list ndarray) (n : nat) :
  Forall (fun a => exists c, shape a = [n; c]) arrs ->
  atleast_1d <$> arrs = arrs.
Proof.
  induction 1 as [|a arrs [c Ha] _ IH]; [reflexivity|].
  rewrite fmap_cons, IH. f_equal. unfold atleast_1d. by rewrite Ha.
Qed.

Lemma hstack_row_length (arrs : list ndarray) (n i : nat) :
  Forall (fun a => exists c, shape a = [n; c]) arrs ->
  Forall wf arrs -> i < n ->
  length (flat_map (fun a => row a i) arrs) = sum_list (ncols <$> arrs).
Proof.
  intros Hs Hw Hi. induction Hs as [|a arrs [c Ha] _ IH]; [reflexivity|].
  apply Forall_cons in Hw as [Hwa Hw].
  cbn [flat_map]. rewrite fmap_cons, length_app, IH by done.
  cbn [sum_list sum_list_with]. unfold id. f_equal.
  rewrite (row_matrix_length a n c i Ha Hwa Hi). unfold ncols. by rewrite Ha.
Qed.

Lemma second_dim_matrices (arrs : list ndarray) (n : nat) :
  Forall (fun a => exists c, shape a = [n; c]) arrs ->
  (fun a => nth 1 (shape a) 0) <$> arrs = ncols <$> arrs.
Proof.
  induction 1 as [|a arrs [c Ha] _ IH]; [reflexivity|].
  rewrite !fmap_cons, IH. f_equal. unfold ncols. by rewrite Ha.
Qed.

(** Matrices of [n] rows placed side by side. *)
Lemma hstack_matrices (A0 : ndarray) (arrs : list ndarray) (n : nat) :
  Forall (fun a => exists c, shape a = [n; c]) (A0 :: arrs) ->
  exists D,
    hstack (A0 :: arrs) = ok D /\
    shape D = [n; sum_list (ncols <$> (A0 :: arrs))] /\
    (Forall wf (A0 :: arrs) -> wf D).
Proof.
  intros Hall. unfold hstack.
  rewrite (atleast_1d_matrices _ n Hall).
  pose proof Hall as [[c0 H0] _]%Forall_cons. rewrite H0.
  rewrite decide_True; last first.
  { eapply Forall_impl; [exact Hall|]. intros a [c Ha].
    unfold ndim. rewrite Ha. cbn. auto. }
  rewrite (second_dim_matrices _ n Hall).
  eexists. split; [reflexivity|]. cbn [shape data]. split; [reflexivity|].
  intros Hw. unfold wf. cbn [shape data]. rewrite !size_of_cons.
  rewrite (length_flat_map_const _ _ (sum_list (ncols <$> (A0 :: arrs)))).
  - rewrite length_seq. cbn [size_of foldr]. by rewrite Nat.mul_1_r.
  - apply Forall_forall. intros i Hi%elem_of_seq.
    apply hstack_row_length with (n := n); [done|done|lia].
Qed.

(** The cross product of a matrix with a vector or matrix of as many rows. *)
Lemma cross_product_shape (X1 X2 : ndarray) (n a : nat) (td : list nat) :
  shape X1 = [n; a] -> shape X2 = n :: td -> length td <= 1 ->
  exists D,
    cross_product X1 X2 = ok D /\
    shape D = [n; a * d_t_eff td] /\
    (wf X1 -> wf X2 -> wf D).
Proof.
  intros H1 H2 Htd. unfold cross_product, ndim. rewrite H1, H2.
  rewrite decide_True by (cbn; lia). rewrite decide_True by done.
  assert (ncols X1 = a) as Ha by (unfold ncols; by rewrite H1).
  assert (ncols X2 = d_t_eff td) as Hb.
  { unfold ncols. rewrite H2. by destruct td as [|d [|? ?]]; cbn in *; try lia. }
  eexists. split; [reflexivity|]. cbn [shape data]. rewrite Ha, Hb.
  split; [reflexivity|]. intros Hw1 Hw2. unfold wf. cbn [shape data].
  rewrite !size_of_cons. cbn [size_of foldr]. rewrite Nat.mul_1_r.
  rewrite (length_flat_map_const _ _ (a * d_t_eff td)); [by rewrite length_seq|].
  apply Forall_forall. intros t Ht%elem_of_seq.
  rewrite (length_flat_map_const _ _ a).
  - rewrite (row_length X2 n td t H2 Hw2) by lia.
    rewrite (size_of_d_t td Htd). lia.
  - apply Forall_forall. intros x2 _. rewrite length_map.
    apply (row_matrix_length X1 n a t H1 Hw1). lia.
Qed.

(** X6.  The design a nuisance wrapper builds from [n] rows of [d_x]
    features and [d_w] controls, when the featurizer returns [p] columns:
    the dense policy gives [n] rows of [p + d_w] columns; the sparse
    policy, used by an outcome wrapper under the sparse flag, gives [n]
    rows of [(d_x + d_w) * (1 + p + d_w)] columns. *)
Theorem combine_design_shape st (w : FirstStageWrapper Model) X W (F : ndarray)
        (f' : Fz) (n dx dw p : nat) :
  shape X = [n; dx] -> shape W = [n; dw] -> wf X -> wf W ->
  fit_transform (featurizer (cells st)) X = (f', ok F) ->
  shape F = [n; p] -> wf F ->
  exists D,
    snd (FirstStageWrapper_combine w X W st) = ok D /\
    wf D /\
    shape D = if _is_Y w && sparseLinear (cells st)
              then [n; (dx + dw) * (1 + p + dw)]
              else [n; p + dw].
Proof.
  intros HX HW HwX HwW Hft HF HwF.
  rewrite combine_design. unfold sparse_design, dense_design. rewrite Hft.
  cbn [snd bindR ok].
  destruct (_is_Y w && sparseLinear (cells st)).
  - destruct (hstack_matrices X [W] n) as (XW & -> & HsXW & HwXW).
    { repeat constructor; eauto. }
    cbn [bindR ok]. unfold shape0. rewrite HsXW. cbn [bindR ok].
    destruct (hstack_matrices (ones [n; 1]) [F; W] n) as (B & -> & HsB & HwB).
    { repeat constructor; eauto. }
    cbn [bindR ok].
    destruct (cross_product_shape XW B n _ [_] HsXW HsB ltac:(cbn; lia))
      as (D & -> & HsD & HwD).
    exists D. split; [done|]. split.
    + apply HwD; [apply HwXW|apply HwB]; repeat constructor; auto using ones_wf.
    + rewrite HsD. cbn [d_t_eff fmap list_fmap sum_list sum_list_with].
      unfold ncols, id. rewrite HX, HW, HF. cbn [shape ones full].
      do 2 f_equal; lia.
  - destruct (hstack_matrices F [W] n) as (D & -> & HsD & HwD).
    { repeat constructor; eauto. }
    exists D. split; [done|]. split.
    + apply HwD. repeat constructor; auto.
    + rewrite HsD. cbn [fmap list_fmap sum_list sum_list_with].
      unfold ncols, id. rewrite HW, HF. do 2 f_equal. lia.
Qed.

End Designs.

(* ===================================================================== *)
(** ** The final model, from [fit] to [predict] *)
(* ===================================================================== *)

Section FinalModel.

Context {Model Fz : Type} `{!Estimator Model} `{!Transformer Fz}.
Implicit Types s st : estimator Model Fz.

Lemma sumZ_app (l1 l2 : list Z) :
  Toy.sumZ (l1 ++ l2) = (Toy.sumZ l1 + Toy.sumZ l2)%Z.
Proof.
  unfold Toy.sumZ. induction l1 as [|x l1 IH]; [reflexivity|].
  cbn [app foldr]. rewrite IH. lia.
Qed.

Lemma zip_with_app_l (u v c : list Z) :
  zip_with Z.mul (u ++ v) c
  = zip_with Z.mul u (take (length u) c) ++ zip_with Z.mul v (drop (length u) c).
Proof.
  revert c. induction u as [|x u IH]; intros c; [reflexivity|].
  destruct c as [|y c]; cbn.
  - by destruct v.
  - by rewrite IH.
Qed.

Lemma dot_app (u v c : list Z) :
  Toy.dot (u ++ v) c
  = (Toy.dot u (take (length u) c) + Toy.dot v (drop (length u) c))%Z.
Proof. unfold Toy.dot. by rewrite zip_with_app_l, sumZ_app. Qed.

Lemma dot_zeros (k : nat) (c : list Z) : Toy.dot (replicate k 0%Z) c = 0%Z.
Proof.
  revert c. induction k as [|k IH]; intros c; [reflexivity|].
  destruct c as [|y c]; [reflexivity|].
  unfold Toy.dot in *. cbn. rewrite IH. lia.
Qed.

Lemma chunk_drop (p k : nat) (c : list Z) :
  chunk p (drop p c) k = chunk p c (S k).
Proof. unfold chunk. rewrite drop_drop. f_equal. Qed.

(** The inner product with a run of blocks that are zero except block
    [j] picks block [j] of the other vector. *)
Lemma dot_blocks (f : list Z) (j d : nat) :
  forall (s : nat) (c : list Z),
    Toy.dot (flat_map (fun b => if decide (b = j) then f
                                else replicate (length f) 0%Z) (seq s d)) c
    = if decide (s <= j < s + d)
      then Toy.dot f (chunk (length f) c (j - s))
      else 0%Z.
Proof.
  induction d as [|d IH]; intros s c.
  - cbn. by rewrite decide_False by lia.
  - cbn [seq flat_map]. rewrite dot_app, IH.
    destruct (decide (s = j)) as [->|Hne].
    + rewrite decide_False by lia. rewrite decide_True by lia.
      rewrite Nat.sub_diag. unfold chunk. cbn. rewrite drop_0. lia.
    + rewrite length_replicate, dot_zeros, chunk_drop.
      destruct (decide (S s <= j < S s + d)).
      * rewrite decide_True by lia. replace (S (j - S s)) with (j - s) by lia. lia.
      * rewrite decide_False by lia. lia.
Qed.

Lemma dot_naive_row (d j : nat) (f c : list Z) :
  j < d -> Toy.dot (naive_row d j f) c = Toy.dot f (chunk (length f) c j).
Proof.
  intros Hj. unfold naive_row. rewrite dot_blocks.
  rewrite decide_True by lia. by rewrite Nat.sub_0_r.
Qed.

Lemma fmap_seq_blocks {A} (g : nat -> A) (d m : nat) :
  g <$> seq 0 (m * d)
  = flat_map (fun i => (fun j => g (i * d + j)) <$> seq 0 d) (seq 0 m).
Proof.
  induction m as [|m IH]; [reflexivity|].
  rewrite seq_S, flat_map_app. cbn [flat_map Nat.add]. rewrite app_nil_r, <- IH.
  replace (S m * d) with (m * d + d) by lia.
  rewrite seq_app, fmap_app. f_equal. cbn [Nat.add].
  replace (m * d) with (m * d + 0) at 1 by lia.
  rewrite <- (fmap_add_seq (m * d) 0 d), <- list_fmap_compose.
  by apply list_fmap_ext.
Qed.

Lemma flat_map_ext_seq {A} (g h : nat -> list A) (m : nat) :
  (forall i, i < m -> g i = h i) -> flat_map g (seq 0 m) = flat_map h (seq 0 m).
Proof.
  intros Hext. induction m as [|m IH]; [reflexivity|].
  rewrite seq_S, !flat_map_app. cbn [flat_map Nat.add].
  rewrite IH, Hext by (intros; auto with lia). reflexivity.
Qed.

(** X7.  The design the final model is fit on and the synthetic rows it
    is later asked to predict have the same number of columns.  When the
    final wrapper's [fit] succeeds on treatment residuals of trailing
    shape [td] and a featurized [X] of [p] columns, the final model was
    fit on a design of [p * d_t] columns; a later query whose featurized
    matrix has [p] columns again makes [predict] call the final model on
    a batch of [d_t * m] rows of [p * d_t] columns. *)
Theorem final_design_widths_agree st st' X Xq T_res Y_res (F Fq : ndarray)
        (f1 f2 : Fz) (n m p : nat) (td : list nat) :
  shape T_res = n :: td -> length td <= 1 -> 0 < d_t_eff td ->
  fit_transform (featurizer (cells st)) X = (f1, ok F) -> shape F = [n; p] ->
  FinalWrapper_fit X T_res Y_res st = (st', ok tt) ->
  shape0 Xq = ok m -> 1 <= m ->
  fit_transform (featurizer (cells st')) Xq = (f2, ok Fq) ->
  shape Fq = [m; p] -> wf Fq ->
  let d := d_t_eff td in
  exists D XT,
    fit_calls st' = FinalFit D Y_res :: fit_calls st /\
    cross_product F T_res = ok D /\
    shape D = [n; p * d] /\
    shape XT = [d * m; p * d] /\
    snd (FinalWrapper_predict Xq st')
    = (let? P := est_predict (model_final (cells st')) XT in
       let? effects := reshape P ((-1)%Z :: of_shape td
                                   ++ of_shape (shape_tail Y_res)) in
       match td, shape_tail Y_res with
       | _ :: _, _ :: _ => transpose effects [0; 2; 1]
       | _, _ => ok effects
       end).
Proof.
  intros HT Htd Hd Hft HF Hfit Hm Hm1 Hftq HFq HwFq d.
  apply final_fit_effect in Hfit
    as (Hfw & _ & _ & _ & _ & [(e & He & _)|(f' & F' & D & m' & Hft' & Hcp & _ & _ & Hcalls)]);
    [done|].
  rewrite Hft in Hft'. injection Hft' as <- <-.
  destruct (cross_product_shape F T_res n p td HF HT Htd) as (D' & HD' & HsD & _).
  rewrite Hcp in HD'. injection HD' as <-.
  exists D, (naive_design d m Fq).
  split; [done|]. split; [done|]. split; [done|]. split.
  - cbn. unfold ncols. rewrite HFq. do 2 f_equal. lia.
  - apply predict_via_naive with (f' := f2) (p := p); try done.
    + rewrite Hfw. cbn. unfold shape_tail. by rewrite HT.
    + by rewrite Hfw.
    + fold d. lia.
Qed.

(** X8.  With a vector outcome and a final model that is linear without
    intercept (its prediction on each synthetic row is the inner product
    of the row with a coefficient vector [c]), the effect returned for
    sample [i] and treatment dimension [j] is the inner product of the
    features of [i] with block [j] of [c]; and when the final model
    exposes [c] as its coefficients, [coef_] returns [c] under the shape
    [d_t + (p,)], whose block [j] is that same block. *)
Theorem effect_is_coefficient_block st X (td : list nat) (F : ndarray) (f' : Fz)
        (m p : nat) (c : list Z) :
  _d_t (_model_final st) = Some td ->
  _d_y (_model_final st) = Some [] ->
  length td <= 1 -> 0 < d_t_eff td ->
  shape0 X = ok m -> 1 <= m ->
  fit_transform (featurizer (cells st)) X = (f', ok F) ->
  shape F = [m; p] -> wf F ->
  let d := d_t_eff td in
  let XT := naive_design d m F in
  est_predict (model_final (cells st)) XT
  = ok {| shape := [d * m];
          data := (fun r => Toy.dot (row XT r) c) <$> seq 0 (d * m) |} ->
  snd (const_marginal_effect (Some X) st)
  = ok {| shape := m :: td;
          data := flat_map (fun i => (fun j => Toy.dot (row F i) (chunk p c j))
                                       <$> seq 0 d)
                           (seq 0 m) |} /\
  (forall carr : ndarray,
      est_coef (model_final (cells st)) = ok carr ->
      data carr = c -> length c = d * p ->
      coef_ st = (st, ok {| shape := td ++ [p]; data := c |})).
Proof.
  intros Ht Hy Htd Hd Hm Hm1 Hft HF HwF d XT HP. split.
  - unfold const_marginal_effect.
    rewrite (predict_via_naive st X td [] F f' m p) by (try done; lia).
    fold d XT. rewrite HP. cbn [bindR ok].
    rewrite (reshape_predictions _ td [] m); try done; cbn [shape data].
    2:{ unfold wf. cbn [shape data]. rewrite length_fmap, length_seq. cbn. lia. }
    2:{ cbn. lia. }
    cbn [bindR ok].
    assert (forall E : ndarray,
               match td with
               | [] => inr E
               | _ :: _ => @inr exn ndarray E
               end = inr E) as -> by (by destruct td).
    do 2 f_equal; [by rewrite app_nil_r|].
    rewrite (Nat.mul_comm d m), fmap_seq_blocks.
    apply flat_map_ext_seq. intros i Hi.
    apply list_fmap_ext. intros _ j Hj%list_elem_of_lookup_2%elem_of_seq.
    subst XT. rewrite (naive_design_row d F m p i j HF HwF Hi) by lia.
    rewrite dot_naive_row by lia.
    by rewrite (row_matrix_length F m p i HF HwF Hi).
  - intros carr Hc Hdata Hlen. unfold coef_, FinalWrapper_coef_.
    rewrite (bind_eq_ok _ _ st st st) by reflexivity.
    rewrite bind_lift, Hc. unfold ok at 1.
    rewrite Hy, (bind_eq_ok _ _ st st []) by reflexivity.
    rewrite Ht, (bind_eq_ok _ _ st st td) by reflexivity.
    unfold lift. f_equal. cbn [of_shape fmap list_fmap app].
    change (Z.of_nat <$> td) with (of_shape td).
    change [(-1)%Z] with ((-1)%Z :: of_shape []).
    rewrite (reshape_infer carr td [] p).
    + by rewrite Hdata.
    + rewrite Hdata, Hlen, (size_of_d_t td Htd). fold d. cbn. lia.
    + rewrite (size_of_d_t td Htd). cbn. lia.
Qed.

(** X9.  A nuisance wrapper's [predict] returns the wrapped model's
    prediction on the design that [_combine] builds, and changes nothing
    but the shared featurizer: every wrapper, the final wrapper, the final
    model, the configuration and the trace of fit calls are as before. *)
Theorem wrapper_predict_reads_only (self : ref) X W st :
  let st' := fst (FirstStageWrapper_predict self X W st) in
  only_featurizer st st' /\
  snd (FirstStageWrapper_predict self X W st)
  = match lookup_ref self st with
    | None => raise IndexError
    | Some w =>
        let? D := snd (FirstStageWrapper_combine w X W st) in
        est_predict (_model w) D
    end.
Proof.
  destruct (FirstStageWrapper_predict self X W st) as [st' r] eqn:Hrun.
  cbv zeta. cbn [fst snd].
  split; [by eapply wrapper_predict_only|].
  unfold FirstStageWrapper_predict, bind in Hrun.
  destruct (deref self st) as [s0 rw] eqn:Hd.
  apply deref_inv in Hd as [-> ->].
  destruct (lookup_ref self st) as [w|]; unfold ok, raise in *;
    cbv beta iota in Hrun; [|by injection Hrun as <- <-].
  destruct (FirstStageWrapper_combine w X W st) as [s1 [e|D]];
    cbn [snd bindR]; unfold lift in Hrun; by injection Hrun as <- <-.
Qed.

End FinalModel.

(* ===================================================================== *)
(** ** The nuisance models that [fit] leaves behind *)
(* ===================================================================== *)

Section Persisted.

Context {Model Fz : Type} `{!Estimator Model} `{!Transformer Fz}.
Implicit Types s st : estimator Model Fz.

Lemma lookup_ref_only (r : ref) s s' :
  only_featurizer s s' -> lookup_ref r s' = lookup_ref r s.
Proof. intros (A1 & A2 & _). destruct r; cbn; by rewrite ?A1, ?A2. Qed.

Lemma wrapper_fit_ok_store (self : ref) X W Target s s' :
  FirstStageWrapper_fit self X W Target s = (s', ok tt) ->
  exists w w',
    lookup_ref self s = Some w /\ lookup_ref self s' = Some w' /\
    fitted_on (sparseLinear (cells s)) w w' X W Target /\
    sparseLinear (cells s') = sparseLinear (cells s) /\
    forall r, r ≠ self -> lookup_ref r s' = lookup_ref r s.
Proof.
  intros Hrun.
  apply wrapper_fit_effect in Hrun
    as [[_ [e He]]|(w & D & m' & s1 & Hw & Hc & Hf & ->)]; [done|].
  pose proof (combine_design s w X W) as Hd. rewrite Hc in Hd. cbn [snd] in Hd.
  apply combine_only in Hc as (A1 & A2 & A3 & A4 & A5 & A6 & A7).
  exists w, (mk_FirstStageWrapper m' (_is_Y w)).
  split; [done|]. split.
  { destruct self as [idx|idx]; cbn in *; rewrite ?A1, ?A2;
      apply list_lookup_insert_eq; by eapply lookup_lt_Some. }
  split.
  { split; [done|]. exists (featurizer (cells s)), D.
    split; [by rewrite <- Hd|done]. }
  split; [by destruct self|].
  intros r Hr.
  destruct self as [i|i], r as [j|j]; cbn; rewrite ?A1, ?A2; try done;
    apply list_lookup_insert_ne; congruence.
Qed.

Lemma fit_fold_models Y T X W idx train test acc acc' s s1 :
  fit_fold Y T X W (idx, (train, test)) acc s = (s1, ok acc') ->
  sparseLinear (cells s1) = sparseLinear (cells s) /\
  fold_models Y T X W idx train s s1.
Proof.
  intros Hrun. destruct acc as [y_res t_res].
  unfold fit_fold in Hrun. inv_run. subst.
  repeat match goal with u : unit |- _ => destruct u end.
  match goal with
  | Ht : FirstStageWrapper_fit (Models_t idx) _ _ _ s = (?sa, _),
    Hp : FirstStageWrapper_predict (Models_t idx) _ _ ?sa = (?sb, _),
    Hy : FirstStageWrapper_fit (Models_y idx) _ _ _ ?sb = (?sc, _),
    Hq : FirstStageWrapper_predict (Models_y idx) _ _ ?sc = (_, _) |- _ =>
      apply wrapper_fit_ok_store in Ht
        as (wt & wt' & Ht0 & Ht1 & Htf & Htsp & Htother);
      apply wrapper_fit_ok_store in Hy
        as (wy & wy' & Hy0 & Hy1 & Hyf & Hysp & Hyother);
      apply wrapper_predict_only in Hp;
      apply wrapper_predict_only in Hq;
      pose proof (lookup_ref_only (Models_y idx) _ _ Hp) as Hpy;
      pose proof (lookup_ref_only (Models_t idx) _ _ Hp) as Hpt;
      pose proof (lookup_ref_only (Models_y idx) _ _ Hq) as Hqy;
      pose proof (lookup_ref_only (Models_t idx) _ _ Hq) as Hqt;
      destruct Hp as (_ & _ & _ & _ & _ & Hpsp & _);
      destruct Hq as (_ & _ & _ & _ & _ & Hqsp & _);
      pose proof (Htother (Models_y idx) ltac:(discriminate)) as Hty;
      pose proof (Hyother (Models_t idx) ltac:(discriminate)) as Hyt;
      assert (sparseLinear (cells sb) = sparseLinear (cells s)) as Hsb
        by congruence;
      rewrite Hsb in Hyf
  end.
  split; [congruence|].
  exists wy, wt, wy', wt'. eexists _, _, _, _.
  cbn [lookup_ref] in *.
  split; [congruence|]. split; [congruence|].
  split; [congruence|]. split; [congruence|].
  repeat (split; [eassumption|]).
  done.
Qed.

(** The loop of [fit] over the folds [l], numbered from [b] on: each fold
    fits its own two wrappers, and no other fold touches them. *)
Lemma cross_fit_loop_models Y T X W (l : list (list nat * list nat)) :
  forall (b : nat) acc s s' acc',
    for_each (zip (seq b (length l)) l) (fit_fold Y T X W) acc s = (s', ok acc') ->
    sparseLinear (cells s') = sparseLinear (cells s) /\
    (forall f, f < b \/ b + length l <= f ->
               _models_y s' !! f = _models_y s !! f /\
               _models_t s' !! f = _models_t s !! f) /\
    (forall q train test,
        l !! q = Some (train, test) -> fold_models Y T X W (b + q) train s s').
Proof.
  induction l as [|[train test] l IH]; intros b acc s s' acc' Hrun.
  - cbn in Hrun. injection Hrun as <- <-. repeat split; auto. by intros q ? ? ?.
  - cbn [length seq zip zip_with for_each] in Hrun.
    apply bind_ok in Hrun as (acc1 & s1 & Hfold & Hrest).
    pose proof (fit_fold_same Y T X W b train test acc _ _ _ Hfold) as Hsame.
    apply fit_fold_models in Hfold as [Hsp Hfold].
    apply IH in Hrest as (Hsp' & Hout' & Hfolds').
    split; [congruence|]. split.
    + intros f Hf. cbn [length] in Hf.
      destruct (Hout' f ltac:(lia)) as [-> ->]. apply Hsame. lia.
    + intros q tr te Hq. destruct q as [|q]; cbn in Hq.
      * injection Hq as <- <-. rewrite Nat.add_0_r.
        destruct Hfold as (wy & wt & wy' & wt' & Xt & Wt & Yt & Tt & B1 & B2 & B3
                           & B4 & Hrows).
        destruct (Hout' b ltac:(lia)) as [E1 E2].
        exists wy, wt, wy', wt', Xt, Wt, Yt, Tt.
        split; [done|]. split; [done|].
        split; [congruence|]. split; [congruence|]. done.
      * destruct (Hfolds' q tr te Hq)
          as (wy & wt & wy' & wt' & Xt & Wt & Yt & Tt & B1 & B2 & B3 & B4 & C1
              & C2 & C3 & C4 & F1 & F2).
        destruct (Hsame (S b + q) ltac:(lia)) as [E1 E2].
        rewrite Nat.add_succ_r. cbn [Nat.add] in *.
        exists wy, wt, wy', wt', Xt, Wt, Yt, Tt.
        split; [congruence|]. split; [congruence|].
        rewrite <- Hsp. repeat (split; [done|]). done.
Qed.

(** What a successful [fit] leaves in the wrappers. *)
Lemma fit_ok_models st st' Y T (X W : option ndarray) :
  fit Y T X W st = (st', ok tt) ->
  exists X' W' kf folds,
    fit_args Y T X W = ok (X', W') /\
    KFold_init (_n_splits st) = ok kf /\
    KFold_split kf X' = ok folds /\
    length folds = Z.to_nat (_n_splits st) /\
    (forall f train test,
        folds !! f = Some (train, test) ->
        fold_models Y T X' W' f train st st') /\
    (forall f, length folds <= f ->
               _models_y st' !! f = _models_y st !! f /\
               _models_t st' !! f = _models_t st !! f).
Proof.
  intros Hfit. unfold fit in Hfit.
  apply bind_ok in Hfit as ([X' W'] & s1 & Hargs & Hrest).
  apply lift_ok in Hargs as [-> Hargs].
  apply bind_ok in Hrest as ([y_res t_res] & st_cf & Hcf & Hfinal).
  destruct (fit_args_inv _ _ _ _ _ _ Hargs) as (n & _ & _ & HnX).
  unfold cross_fit in Hcf. inv_run.
  apply final_fit_effect in Hfinal as (_ & A1 & A2 & _).
  match goal with
  | Hi : KFold_init _ = inr ?kf, Hs : KFold_split ?kf X' = inr ?folds,
    Hl : for_each _ _ _ _ = _ |- _ =>
      exists X', W', kf, folds;
      apply (cross_fit_loop_models Y T X' W' folds 0) in Hl
        as (Hsp & Hout & Hfolds);
      pose proof (KFold_split_inv _ _ _ _ _ HnX Hi Hs) as Hk;
      destruct (kfold_partition_facts _ X' n HnX Hk)
        as (kf' & folds' & Hi' & Hs' & Hlen & _);
      assert (kf' = kf) as -> by (unfold ok in *; congruence);
      assert (folds' = folds) as -> by (unfold ok in *; congruence)
  end.
  split; [done|]. split; [done|]. split; [done|]. split; [done|]. split.
  - intros f train test Hf.
    destruct (Hfolds f train test Hf)
      as (wy & wt & wy' & wt' & Xt & Wt & Yt & Tt & B1 & B2 & B3 & B4 & Hrows).
    exists wy, wt, wy', wt', Xt, Wt, Yt, Tt. rewrite A1, A2.
    cbn [Nat.add] in *. done.
  - intros f Hf. rewrite A1, A2. apply Hout. lia.
Qed.

(** X10.  After a successful [fit] there are as many folds as splits, and
    the wrappers of fold [f] hold the models that one [fit] call each, on
    the training rows of fold [f], made of the models the estimator had
    before: the treatment model of the fold fit on the treatment rows, the
    outcome model on the outcome rows.  No later fold and not the final
    stage touched them, and wrappers beyond the number of folds are as
    before. *)
Theorem nuisance_models_fit_once_and_kept st st' Y T (X W : option ndarray) :
  fit Y T X W st = (st', ok tt) ->
  exists X' W' kf folds,
    fit_args Y T X W = ok (X', W') /\
    KFold_init (_n_splits st) = ok kf /\
    KFold_split kf X' = ok folds /\
    length folds = Z.to_nat (_n_splits st) /\
    (forall f train test,
        folds !! f = Some (train, test) ->
        fold_models Y T X' W' f train st st') /\
    (forall f, length folds <= f ->
               _models_y st' !! f = _models_y st !! f /\
               _models_t st' !! f = _models_t st !! f).
Proof. apply fit_ok_models. Qed.

End Persisted.

(* ===================================================================== *)
(** ** From the constructor to the fitted estimator *)
(* ===================================================================== *)

Section Constructed.

Context {Model Fz : Type} `{!Estimator Model} `{!Transformer Fz}.
Implicit Types s st : estimator Model Fz.

Lemma init_wrappers (my mt mf : Model) (fz : Fz) (sparse : bool) (k : Z) (f : nat)
      (w : FirstStageWrapper Model) :
  let st := DMLCateEstimatorBase_init my mt mf fz sparse k in
  (_models_y st !! f = Some w -> w = mk_FirstStageWrapper (est_clone my) true) /\
  (_models_t st !! f = Some w -> w = mk_FirstStageWrapper (est_clone mt) false) /\
  length (_models_y st) = Z.to_nat k /\ length (_models_t st) = Z.to_nat k /\
  sparseLinear (cells st) = sparse.
Proof.
  cbn [DMLCateEstimatorBase_init RLearner_init _models_y _models_t cells
       sparseLinear].
  rewrite !list_lookup_fmap, !length_fmap. unfold range. rewrite length_seq.
  repeat split; try done; destruct (seq 0 (Z.to_nat k) !! f); cbn;
    by intros [= <-].
Qed.

(** X11.  An estimator built by [_DMLCateEstimatorBase.__init__] and then
    fit successfully holds [n_splits] wrappers on each side, and the
    wrappers of fold [f] hold the models that one [fit] call each made of a
    fresh clone of the constructor's [model_y] (on the outcome rows) and of
    a fresh clone of its [model_t] (on the treatment rows), on the training
    rows of fold [f] only; the outcome side uses the sparse design exactly
    when the estimator was built sparse, the treatment side never. *)
Theorem constructed_then_fit (my mt mf : Model) (fz : Fz) (sparse : bool) (k : Z)
        st' Y T (X W : option ndarray) :
  fit Y T X W (DMLCateEstimatorBase_init my mt mf fz sparse k) = (st', ok tt) ->
  length (_models_y st') = Z.to_nat k /\
  length (_models_t st') = Z.to_nat k /\
  exists X' W' kf folds,
    fit_args Y T X W = ok (X', W') /\
    KFold_init k = ok kf /\
    KFold_split kf X' = ok folds /\
    length folds = Z.to_nat k /\
    forall f train test,
      folds !! f = Some (train, test) ->
      exists wy' wt' X_train W_train Y_train T_train,
        take_rows X' train = ok X_train /\ take_rows W' train = ok W_train /\
        take_rows Y train = ok Y_train /\ take_rows T train = ok T_train /\
        _models_y st' !! f = Some wy' /\ _models_t st' !! f = Some wt' /\
        fitted_on sparse (mk_FirstStageWrapper (est_clone my) true) wy'
                  X_train W_train Y_train /\
        fitted_on sparse (mk_FirstStageWrapper (est_clone mt) false) wt'
                  X_train W_train T_train.
Proof.
  intros Hfit.
  set (st := DMLCateEstimatorBase_init my mt mf fz sparse k) in *.
  pose proof (fit_same_config Y T X W st st' _ Hfit) as (_ & _ & Ly & Lt).
  apply (f_equal length) in Ly, Lt. rewrite !length_fmap in Ly, Lt.
  destruct (init_wrappers my mt mf fz sparse k 0 (mk_FirstStageWrapper my true))
    as (_ & _ & Ly0 & Lt0 & Hsp).
  fold st in Ly0, Lt0, Hsp.
  split; [congruence|]. split; [congruence|].
  destruct (fit_ok_models st st' Y T X W Hfit)
    as (X' & W' & kf & folds & Hargs & Hinit & Hsplit & Hlen & Hfolds & _).
  exists X', W', kf, folds.
  repeat (split; [done|]).
  intros f train test Hf.
  destruct (Hfolds f train test Hf)
    as (wy & wt & wy' & wt' & Xt & Wt & Yt & Tt & B1 & B2 & B3 & B4 & C1 & C2
        & C3 & C4 & F1 & F2).
  destruct (init_wrappers my mt mf fz sparse k f wy) as (Ey & _).
  destruct (init_wrappers my mt mf fz sparse k f wt) as (_ & Et & _).
  fold st in Ey, Et. rewrite <- (Ey B1), <- (Et B2), <- Hsp.
  exists wy', wt', Xt, Wt, Yt, Tt. done.
Qed.

End Constructed.

(* ===================================================================== *)
(** ** Queries on the fitted estimator *)
(* ===================================================================== *)

Section Queries.

Context {Model Fz : Type} `{!Estimator Model} `{!Transformer Fz}.
Implicit Types s st : estimator Model Fz.

(** X12.  [coef_] only reads: whatever it returns or raises, the
    estimator is as before.  On an estimator that was never fit it raises
    [AttributeError] on [_d_y] once the final model has handed over its
    coefficients; and on a fitted one it raises [ValueError] when the
    number of coefficients is not a multiple of the number of pairs of an
    outcome and a treatment dimension, or when that number is zero. *)
Theorem coef_reads_without_writing st :
  fst (coef_ st) = st /\
  (forall c : ndarray,
      est_coef (model_final (cells st)) = ok c ->
      _d_y (_model_final st) = None ->
      snd (coef_ st) = raise (AttributeError "_d_y")) /\
  (forall (c : ndarray) (td yd : list nat),
      est_coef (model_final (cells st)) = ok c ->
      _d_t (_model_final st) = Some td ->
      _d_y (_model_final st) = Some yd ->
      (size_of yd * size_of td = 0 \/
       forall q, length (data c) ≠ size_of yd * size_of td * q) ->
      snd (coef_ st) = raise ValueError).
Proof.
  unfold coef_, FinalWrapper_coef_, bind, get, lift, getattr, ret, throw.
  split; [|split].
  - destruct (est_coef _); [done|].
    destruct (_d_y _); [|done]. by destruct (_d_t _).
  - intros c -> ->. reflexivity.
  - intros c td yd -> -> -> Hbad. unfold ok. cbn [snd]. unfold reshape.
    destruct (decide (Exists _ _)); [reflexivity|].
    rewrite !filter_app.
    rewrite !filter_unknown_of_shape, !filter_known_of_shape.
    rewrite (filter_cons_True (fun d => d = (-1)%Z)) by done.
    rewrite (filter_cons_False (fun d => d ≠ (-1)%Z))
      by (intros Hc; apply Hc; reflexivity).
    cbn [filter list_filter app length].
    rewrite app_nil_r, prod_app, !prod_of_shape.
    destruct (decide _) as [|Hnz]; [reflexivity|].
    destruct (decide _) as [Hmod|]; [|reflexivity].
    exfalso. destruct Hbad as [Hz|Hq]; [lia|].
    apply Z.mod_divide in Hmod as [q Hq']; [|done].
    apply (Hq (Z.to_nat q)). nia.
Qed.

Lemma take_add_app {A} (n k : nat) (l : list A) :
  take (n + k) l = take n l ++ take k (drop n l).
Proof.
  revert l. induction n as [|n IH]; intros l; [reflexivity|].
  destruct l as [|x l]; cbn; [by rewrite take_nil|]. by rewrite IH.
Qed.

Lemma chunks_take (w m : nat) (l : list Z) :
  flat_map (chunk w l) (seq 0 m) = take (m * w) l.
Proof.
  induction m as [|m IH]; [reflexivity|].
  rewrite seq_S, flat_map_app, IH. cbn [flat_map Nat.add]. rewrite app_nil_r.
  unfold chunk. replace (S m * w) with (m * w + w) by lia.
  by rewrite take_add_app.
Qed.

Lemma naive_design_one (F : ndarray) (m p : nat) :
  shape F = [m; p] -> wf F -> naive_design 1 m F = F.
Proof.
  intros HF Hw. unfold naive_design, ncols. rewrite HF.
  destruct F as [sh dat]. cbn [shape data] in *. subst sh.
  f_equal; [f_equal; [lia|f_equal; lia]|].
  transitivity (flat_map (chunk p dat) (seq 0 m)).
  - apply flat_map_ext. intros i. cbn. unfold naive_row, row. cbn.
    rewrite decide_True, !app_nil_r, Nat.mul_1_r by done. reflexivity.
  - rewrite chunks_take. apply take_ge. unfold wf in Hw. cbn in Hw. lia.
Qed.

(** X13.  When the treatment the estimator was fit on is a vector, a
    query asks the final model for its prediction on exactly the
    featurized query, one row per sample, and returns that prediction
    reshaped to [(m,) + d_y]. *)
Theorem vector_treatment_predicts_on_features st X (yd : list nat) (F : ndarray)
        (f' : Fz) (m p : nat) :
  _d_t (_model_final st) = Some [] ->
  _d_y (_model_final st) = Some yd ->
  shape0 X = ok m -> 1 <= m ->
  fit_transform (featurizer (cells st)) X = (f', ok F) ->
  shape F = [m; p] -> wf F ->
  snd (const_marginal_effect (Some X) st)
  = (let? P := est_predict (model_final (cells st)) F in
     reshape P ((-1)%Z :: of_shape yd)).
Proof.
  intros Ht Hy Hm Hm1 Hft HF Hw. unfold const_marginal_effect.
  rewrite (predict_via_naive st X [] yd F f' m p) by (try done; cbn; lia).
  cbn [d_t_eff]. rewrite (naive_design_one F m p HF Hw).
  destruct (est_predict _ F) as [e|P]; [reflexivity|]. cbn [bindR of_shape fmap list_fmap app].
  by destruct (reshape P _).
Qed.

(** X14.  A query that returns has refit the shared featurizer on the
    query (the code calls [fit_transform], not [transform]): afterwards the
    featurizer is the one that call left.  Nothing else has changed: the
    wrappers, the final model, the configuration, the trace of fit calls. *)
Theorem query_refits_featurizer st st' (X : option ndarray) (E : ndarray) :
  const_marginal_effect X st = (st', ok E) ->
  let Xq := match X with
            | None => ones [1; 1]
            | Some X => X
            end in
  (exists F, fit_transform (featurizer (cells st)) Xq
             = (featurizer (cells st'), ok F)) /\
  trained st' = trained st /\
  fit_calls st' = fit_calls st /\
  _n_splits st' = _n_splits st /\
  sparseLinear (cells st') = sparseLinear (cells st).
Proof.
  intros Hrun Xq. unfold const_marginal_effect in Hrun. fold Xq in Hrun.
  unfold FinalWrapper_predict in Hrun.
  apply bind_ok in Hrun as (s0 & s1 & Hget & Hrun).
  unfold get in Hget. injection Hget as <- <-.
  apply bind_ok in Hrun as (d_t & s1 & Hdt & Hrun).
  assert (s1 = st) as ->.
  { unfold getattr, ret, throw in Hdt. destruct (_d_t _); by injection Hdt. }
  apply bind_ok in Hrun as (flat_eye & s1 & Hfe & Hrun).
  apply lift_ok in Hfe as [-> _].
  apply bind_ok in Hrun as (F & s1 & HF & Hrun).
  unfold featurizer_fit_transform in HF.
  destruct (fit_transform (featurizer (cells st)) Xq) as [f' rF] eqn:Hft.
  injection HF as <- ->.
  assert (st' = set_cells st (mk_closure f' (model_final (cells st))
                                         (sparseLinear (cells st)))) as ->.
  { inv_run.
    match goal with
    | Hd : getattr _ _ _ = _ |- _ =>
        unfold getattr, ret, throw in Hd;
        destruct (_d_y (_model_final st)); [|discriminate Hd];
        injection Hd as <- <-
    end.
    match goal with
    | Hm : match d_t with [] => _ | _ :: _ => match ?l with _ => _ end end _ = _
      |- _ => destruct d_t, l; inv_run; reflexivity
    end. }
  cbn. split; [by exists F|]. done.
Qed.

End Queries.

(* ===================================================================== *)
(** ** The statements on concrete estimators *)
(* ===================================================================== *)

Import Toy.

(** Outcome of 4 rows against a treatment of 3 rows: the assertion fails,
    nothing is fit, and a later query fails on the missing attribute. *)
Lemma fit_row_mismatch_aborts_witness :
  let st := dml 2 in
  let st' := fst (fit Y4 T3 (Some X4) None st) in
  snd (fit Y4 T3 (Some X4) None st) = raise AssertionError /\
  st' = st /\
  fit_calls st' = fit_calls st /\
  (unfitted st ->
   unfitted st' /\
   forall Xq, snd (const_marginal_effect Xq st') = raise (AttributeError "_d_t")).
Proof.
  apply (fit_row_mismatch_aborts (dml 2) Y4 T3 (Some X4) None 4 3 4 4);
    [reflexivity|reflexivity|reflexivity|reflexivity|lia].
Defined.

(** Four rows and five splits: the splitter refuses, nothing is fit. *)
Lemma fit_too_few_rows_aborts_witness :
  let st := dml 5 in
  let st' := fst (fit Y4 T4 (Some X4) (Some W4) st) in
  snd (fit Y4 T4 (Some X4) (Some W4) st) = raise ValueError /\
  st' = st /\
  fit_calls st' = fit_calls st /\
  (unfitted st ->
   unfitted st' /\
   forall Xq, snd (const_marginal_effect Xq st') = raise (AttributeError "_d_t")).
Proof.
  apply (fit_too_few_rows_aborts (dml 5) Y4 T4 (Some X4) (Some W4) 4);
    [reflexivity|reflexivity|reflexivity|reflexivity|simpl; lia].
Defined.

(** Two splits of four rows. *)
Lemma kfold_test_sets_partition_witness :
  exists kf folds,
    KFold_init 2 = ok kf /\
    KFold_split kf X4 = ok folds /\
    length folds = Z.to_nat 2 /\
    Forall (fun fold => snd fold ≠ [] /\ NoDup (snd fold) /\
                        forall i, i ∈ fst fold <-> i < 4 /\ i ∉ snd fold) folds /\
    (forall i, i < 4 <-> exists f fold, folds !! f = Some fold /\ i ∈ snd fold) /\
    (forall f f' fold fold' i,
        folds !! f = Some fold -> folds !! f' = Some fold' ->
        i ∈ snd fold -> i ∈ snd fold' -> f = f').
Proof.
  apply (kfold_test_sets_partition 2 X4 4); [reflexivity|lia].
Defined.

(** C5 as stated fails: one split, or none, is within [k <= n], and the
    splitter refuses to be built for fewer than two. *)
Lemma kfold_single_split_counterexample :
  KFold_init 1 = raise ValueError /\
  KFold_init 0 = raise ValueError /\
  ~ (forall (k : Z) (n : nat),
        (k <= Z.of_nat n)%Z ->
        exists kf folds,
          KFold_init k = ok kf /\
          KFold_split kf (zeros [n; 1]) = ok folds /\
          forall i, i < n <-> exists f fold, folds !! f = Some fold /\ i ∈ snd fold).
Proof.
  split; [reflexivity|]. split; [reflexivity|].
  intros Hclaim.
  destruct (Hclaim 1%Z 1 ltac:(lia)) as (kf & folds & Hinit & _).
  discriminate Hinit.
Qed.

(** C2 as stated fails for a query without rows: on an estimator fitted
    with three treatment and two outcome dimensions, the call raises
    instead of returning an array of shape (0, 2, 3). *)
Lemma empty_query_counterexample :
  fit Y42 T43 (Some X4) None (dml_passthrough 2) = (fitted42_passthrough, ok tt) /\
  _d_t (_model_final fitted42_passthrough) = Some [3] /\
  _d_y (_model_final fitted42_passthrough) = Some [2] /\
  shape0 X0 = ok 0 /\
  snd (const_marginal_effect (Some X0) fitted42_passthrough) = raise ValueError.
Proof. repeat split; vm_compute; reflexivity. Qed.

(** Four query rows, three treatment and two outcome dimensions. *)
Lemma const_marginal_effect_shape_witness :
  fit Y42 T43 (Some X4) None (dml 2) = (fitted42, ok tt) /\
  exists E,
    snd (const_marginal_effect (Some X4) fitted42) = ok E /\
    wf E /\
    shape E = [4; 2; 3].
Proof.
  split; [vm_compute; reflexivity|].
  apply (const_marginal_effect_shape fitted42 X4 [3] [2] F4 P42
                                     (mk_poly1 (Some 1)) 4 2);
    try reflexivity; simpl; lia.
Defined.

(** Sample 1 and treatment dimension 2 of the same query. *)
Lemma kron_design_is_naive_design_witness :
  let XT := naive_design 3 4 F4 in
  let mf := model_final (cells fitted42) in
  (let? flat_eye := reshape (eye 3) [1; -1]%Z in
   let? K := kron flat_eye F4 in
   reshape K [Z.of_nat (3 * 4); -1]%Z) = ok XT /\
  row XT (1 * 3 + 2) = naive_row 3 2 (row F4 1) /\
  row XT (1 * 3 + 2) = [0; 0; 0; 0; 1; 0]%Z /\
  cross_product (single_row (row F4 1))
                {| shape := [1; 3]; data := unit_vector 3 2 |}
  = ok {| shape := [1; 2 * 3]; data := naive_row 3 2 (row F4 1) |} /\
  exists effects,
    reshape P42 ((-1)%Z :: of_shape [3] ++ of_shape [2]) = ok effects /\
    shape effects = [4; 3; 2] /\
    est_predict mf (single_row (naive_row 3 2 (row F4 1)))
    = ok {| shape := [1; 2];
            data := chunk 2 (data effects) (1 * 3 + 2) |}.
Proof.
  destruct (kron_design_is_naive_design fitted42 X4 [3] [2] F4
                                        (mk_poly1 (Some 1)) 4 2 1 2)
    as (Hbatch & _ & _ & Hrow & Hcross & Hpred);
    [reflexivity|reflexivity|simpl; lia|reflexivity|reflexivity|reflexivity
    |reflexivity|lia|simpl; lia|].
  split; [exact Hbatch|].
  split; [exact Hrow|]. split; [reflexivity|]. split; [exact Hcross|].
  apply (Hpred P42); [reflexivity|reflexivity|reflexivity|simpl; lia|].
  intros r Hr. cbn in Hr.
  do 12 (destruct r as [|r]; [vm_compute; reflexivity|]). lia.
Defined.

(** The fitted coefficients, and a final model without coefficients. *)
Lemma coef_reshapes_or_fails_witness :
  (exists c, est_coef (model_final (cells fitted42)) = ok c /\
             coef_ fitted42 = (fitted42, ok {| shape := [2] ++ [3] ++ [2];
                                               data := data c |})) /\
  coef_ fitted42_nocoef = (fitted42_nocoef, raise (AttributeError "coef_")).
Proof.
  split.
  - eexists. split; [reflexivity|].
    apply (proj1 (coef_reshapes_or_fails fitted42) _ [3] [2] 2);
      [reflexivity|reflexivity|reflexivity|reflexivity|simpl; lia].
  - apply (proj2 (coef_reshapes_or_fails fitted42_nocoef)). reflexivity.
Defined.



(** Four rows, two folds, controls given. *)
Lemma residuals_out_of_fold_witness :
  let st := dml 2 in
  let st' := fst (fit Y4 T4 (Some X4) (Some W4) st) in
  fit Y4 T4 (Some X4) (Some W4) st = (st', ok tt) /\
  exists X' W' kf folds st_cf y_res t_res,
    fit_args Y4 T4 (Some X4) (Some W4) = ok (X', W') /\
    KFold_init (_n_splits st) = ok kf /\
    KFold_split kf X' = ok folds /\
    cross_fit Y4 T4 X' W' st = (st_cf, ok (y_res, t_res)) /\
    FinalWrapper_fit X' t_res y_res st_cf = (st', ok tt) /\
    shape y_res = shape Y4 /\ shape t_res = shape T4 /\
    forall i, i < 4 ->
      exists f train test p (s0 s4 : estimator model poly1) Y_hat T_hat,
        folds !! f = Some (train, test) /\
        test !! p = Some i /\
        (forall j, j ∈ train -> j ∉ test) /\
        (forall f' fold', folds !! f' = Some fold' -> i ∈ snd fold' -> f' = f) /\
        _models_y s0 !! f = _models_y st !! f /\
        _models_t s0 !! f = _models_t st !! f /\
        fold_calls Y4 T4 X' W' f train test s0 s4 Y_hat T_hat /\
        row y_res i = zip_with Z.sub (row Y4 i) (row Y_hat p) /\
        row t_res i = zip_with Z.sub (row T4 i) (row T_hat p).
Proof.
  intros st st'. split; [vm_compute; reflexivity|].
  apply (residuals_out_of_fold st st' Y4 T4 (Some X4) (Some W4) 4);
    [reflexivity|reflexivity|reflexivity| |vm_compute; reflexivity].
  intros m D P. cbn. unfold model_predict.
  destruct (shape D) as [|r [|c [|? ?]]]; try discriminate.
  destruct m as [[[rest means]|]|[coef|]]; try discriminate.
  - destruct (decide _) as [Hlen|]; [|discriminate]. intros [= <-].
    unfold wf. cbn [data shape].
    rewrite size_of_cons, (length_flat_map_const _ _ (length means)).
    + rewrite length_seq. lia.
    + apply Forall_forall. reflexivity.
  - destruct (decide _); [|discriminate]. intros [= <-].
    unfold wf. cbn [data shape].
    rewrite size_of_cons,
      (length_flat_map_const _ _ (size_of (removelast (shape coef)))).
    + by rewrite length_seq.
    + apply Forall_forall. intros i _. by rewrite length_fmap, length_seq.
Defined.

(** Controls given as a vector: the first fold cannot join them to the
    features, and [fit] stops there. *)
Lemma nuisance_failure_aborts_fit_witness :
  let st := dml 2 in
  let s1 := fst (cross_fit Y4 T4 X4 W_vec st) in
  fit Y4 T4 (Some X4) (Some W_vec) st = (s1, raise ValueError) /\
  _model_final s1 = _model_final st /\
  model_final (cells s1) = model_final (cells st) /\
  (exists new, fit_calls s1 = new ++ fit_calls st /\ Forall is_nuisance_call new) /\
  (unfitted st ->
   forall Xq, snd (const_marginal_effect Xq s1) = raise (AttributeError "_d_t")).
Proof.
  intros st s1.
  apply (nuisance_failure_aborts_fit st s1 Y4 T4 (Some X4) (Some W_vec) X4 W_vec
                                     ValueError);
    vm_compute; reflexivity.
Defined.

(** Two folds: four nuisance calls, then the final one. *)
Lemma fit_calls_each_model_once_witness :
  let st := dml 2 in
  let st' := fst (fit Y4 T4 (Some X4) (Some W4) st) in
  exists (new : list call) (D y_res : ndarray),
    fit_calls st' = FinalFit D y_res :: new ++ fit_calls st /\
    length new = 2 * Z.to_nat (_n_splits st) /\
    Forall is_nuisance_call new /\
    shape y_res = shape Y4.
Proof.
  intros st st'.
  apply (fit_calls_each_model_once st st' Y4 T4 (Some X4) (Some W4)).
  vm_compute. reflexivity.
Defined.

(** Three treatment and two outcome dimensions. *)
Lemma fit_records_trailing_shapes_witness :
  _d_t (_model_final fitted42) = Some (shape_tail T43) /\
  _d_y (_model_final fitted42) = Some (shape_tail Y42) /\
  ~ unfitted fitted42.
Proof.
  apply (fit_records_trailing_shapes (dml 2) fitted42 Y42 T43 (Some X4) None).
  vm_compute. reflexivity.
Defined.

(** One feature, two controls and two featurized columns: fifteen columns
    in the sparse design of an outcome wrapper. *)
Lemma combine_design_shape_witness :
  exists D,
    snd (FirstStageWrapper_combine (mk_FirstStageWrapper (MeanRegressor None) true)
                                   X4 W4 (dml_sparse 2)) = ok D /\
    wf D /\
    shape D = [4; 15].
Proof.
  apply (combine_design_shape (dml_sparse 2)
                              (mk_FirstStageWrapper (MeanRegressor None) true)
                              X4 W4 F4 (mk_poly1 (Some 1)) 4 1 2 2);
    reflexivity.
Defined.

(** The final wrapper fit on three treatment dimensions, then queried. *)
Lemma final_design_widths_agree_witness :
  let st := dml 2 in
  let st' := fst (FinalWrapper_fit X4 T43 Y42 st) in
  exists D XT,
    fit_calls st' = FinalFit D Y42 :: fit_calls st /\
    cross_product F4 T43 = ok D /\
    shape D = [4; 2 * 3] /\
    shape XT = [3 * 4; 2 * 3] /\
    snd (FinalWrapper_predict X4 st')
    = (let? P := est_predict (model_final (cells st')) XT in
       let? effects := reshape P ((-1)%Z :: of_shape [3]
                                   ++ of_shape (shape_tail Y42)) in
       match [3], shape_tail Y42 with
       | _ :: _, _ :: _ => transpose effects [0; 2; 1]
       | _, _ => ok effects
       end).
Proof.
  intros st st'.
  apply (final_design_widths_agree st st' X4 X4 T43 Y42 F4 F4
                                   (mk_poly1 (Some 1)) (mk_poly1 (Some 1)) 4 4 2 [3]);
    try (vm_compute; reflexivity); cbn; lia.
Defined.

(** A vector outcome against three treatment dimensions, with the linear
    final model. *)
Lemma effect_is_coefficient_block_witness :
  let st := fst (fit Y4 T43 (Some X4) None (dml 2)) in
  let c := match est_coef (model_final (cells st)) with
           | inr a => data a
           | inl _ => []
           end in
  snd (const_marginal_effect (Some X4) st)
  = ok {| shape := [4; 3];
          data := flat_map (fun i => (fun j => dot (row F4 i) (chunk 2 c j))
                                       <$> seq 0 3)
                           (seq 0 4) |} /\
  (forall carr : ndarray,
      est_coef (model_final (cells st)) = ok carr ->
      data carr = c -> length c = 3 * 2 ->
      coef_ st = (st, ok {| shape := [3] ++ [2]; data := c |})).
Proof.
  intros st c.
  apply (effect_is_coefficient_block st X4 [3] F4 (mk_poly1 (Some 1)) 4 2 c);
    try (vm_compute; reflexivity); cbn; lia.
Defined.

(** Two folds of four rows, controls given. *)
Lemma nuisance_models_fit_once_and_kept_witness :
  let st := dml 2 in
  let st' := fst (fit Y4 T4 (Some X4) (Some W4) st) in
  exists X' W' kf folds,
    fit_args Y4 T4 (Some X4) (Some W4) = ok (X', W') /\
    KFold_init (_n_splits st) = ok kf /\
    KFold_split kf X' = ok folds /\
    length folds = Z.to_nat (_n_splits st) /\
    (forall f train test,
        folds !! f = Some (train, test) ->
        fold_models Y4 T4 X' W' f train st st') /\
    (forall f, length folds <= f ->
               _models_y st' !! f = _models_y st !! f /\
               _models_t st' !! f = _models_t st !! f).
Proof.
  intros st st'.
  apply (nuisance_models_fit_once_and_kept st st' Y4 T4 (Some X4) (Some W4)).
  vm_compute. reflexivity.
Defined.

(** The sparse-linear configuration, built and fit on two folds. *)
Lemma constructed_then_fit_witness :
  let st' := fst (fit Y4 T4 (Some X4) (Some W4) (dml_sparse 2)) in
  length (_models_y st') = Z.to_nat 2 /\
  length (_models_t st') = Z.to_nat 2 /\
  exists X' W' kf folds,
    fit_args Y4 T4 (Some X4) (Some W4) = ok (X', W') /\
    KFold_init 2 = ok kf /\
    KFold_split kf X' = ok folds /\
    length folds = Z.to_nat 2 /\
    forall f train test,
      folds !! f = Some (train, test) ->
      exists wy' wt' X_train W_train Y_train T_train,
        take_rows X' train = ok X_train /\ take_rows W' train = ok W_train /\
        take_rows Y4 train = ok Y_train /\ take_rows T4 train = ok T_train /\
        _models_y st' !! f = Some wy' /\ _models_t st' !! f = Some wt' /\
        fitted_on (Fz := poly1) true
                  (mk_FirstStageWrapper (est_clone (MeanRegressor None)) true)
                  wy' X_train W_train Y_train /\
        fitted_on (Fz := poly1) true
                  (mk_FirstStageWrapper (est_clone (MeanRegressor None)) false)
                  wt' X_train W_train T_train.
Proof.
  intros st'.
  apply (constructed_then_fit (MeanRegressor None) (MeanRegressor None)
                              (MomentRegressor None) (mk_poly1 None) true 2 st'
                              Y4 T4 (Some X4) (Some W4)).
  vm_compute. reflexivity.
Defined.

(** Twelve coefficients against five treatment dimensions: the final
    wrapper took the new shapes, its [fit] then failed in the featurizer,
    and the coefficients of the earlier fit do not fill them. *)
Lemma coef_reads_without_writing_witness :
  let st := fst (FinalWrapper_fit Y4 (zeros [4; 5]) Y4 fitted42) in
  snd (FinalWrapper_fit Y4 (zeros [4; 5]) Y4 fitted42) = raise ValueError /\
  fst (coef_ st) = st /\
  snd (coef_ st) = raise ValueError.
Proof.
  intros st. split; [vm_compute; reflexivity|].
  destruct (coef_reads_without_writing st) as (Hsame & _ & Hbad).
  split; [exact Hsame|].
  apply (Hbad match est_coef (model_final (cells st)) with
              | inr a => a
              | inl _ => zeros []
              end [5] []);
    [vm_compute; reflexivity|reflexivity|reflexivity|].
  right. intros q. change (12 ≠ 1 * 5 * q). lia.
Defined.

(** A vector treatment against two outcome dimensions. *)
Lemma vector_treatment_predicts_on_features_witness :
  let st := fst (fit Y42 T4 (Some X4) None (dml 2)) in
  snd (const_marginal_effect (Some X4) st)
  = (let? P := est_predict (model_final (cells st)) F4 in
     reshape P ((-1)%Z :: of_shape [2])).
Proof.
  intros st.
  apply (vector_treatment_predicts_on_features st X4 [2] F4 (mk_poly1 (Some 1)) 4 2);
    try (vm_compute; reflexivity); cbn; lia.
Defined.

(** The default query, a single row of ones, on the fitted estimator. *)
Lemma query_refits_featurizer_witness :
  let st' := fst (const_marginal_effect None fitted42) in
  (exists F, fit_transform (featurizer (cells fitted42)) (ones [1; 1])
             = (featurizer (cells st'), ok F)) /\
  trained st' = trained fitted42 /\
  fit_calls st' = fit_calls fitted42 /\
  _n_splits st' = _n_splits fitted42 /\
  sparseLinear (cells st') = sparseLinear (cells fitted42).
Proof.
  intros st'.
  apply (query_refits_featurizer
           fitted42 st' None
           match snd (const_marginal_effect None fitted42) with
           | inr E => E
           | inl _ => zeros []
           end).
  vm_compute. reflexivity.
Defined.
